(** * Farmvise: the gamification ledger, the OTP rules and the challenge engine

    A shallow embedding of the Mongoose models [User] and [Challenge] and of
    the two challenge routes ([POST /:id/join], [POST /:id/submit]), followed
    by the properties of the platform's specification that concern them.
    The routes around them are embedded as well, with what the code shows
    of them: the verification of the email and the phone, the wallet and
    its transactions, the rank of an account, the community posts, the
    farming profile and the leaderboard of a challenge.

    Conventions of the embedding.
    - A JavaScript [Number] that holds a count of points, a level or a
      timestamp is an integer of [Z]; [Math.floor (x / 1000)] on such a
      number is [x / 1000] of [Z] (rounding down, also below zero). The one
      ratio of the code, [completionRate], is an exact rational of [Q].
    - A [Date] is its number of milliseconds since the epoch; [new Date ()]
      and [Date.now ()] are the parameter [now] of the operation.
    - A path of a document that may be [undefined] is an [option].
    - An identifier of a document is the ObjectId under which the
      collection keeps it. [Model.findById] casts what it is given to an
      ObjectId before it asks the collection and throws a CastError when
      that cannot be done; which strings the cast takes is a matter of the
      driver, so a path parameter [:id] enters a route as the cast leaves
      it: [Some id], or [None] for the throw.
    - [document.save ()] is the write of the document into the store of the
      route that awaits it; schema validators are taken to accept the
      documents that are stored. *)

From Stdlib Require Import ZArith QArith.
From stdpp Require Import gmap strings list pretty sorting.

Open Scope Z_scope.

(** ** The enumerations the two schemas share *)

(** [role: enum ['farmer', 'student', 'dealer', 'admin']]; the challenge
    schema lists the first three for [eligibility.roles]. *)
Inductive Role := farmer | student | dealer | admin.

(** [experience: enum ['beginner', 'intermediate', 'expert']] *)
Inductive Experience := beginner | intermediate | expert.

#[global] Instance Role_eq_dec : EqDecision Role.
Proof. solve_decision. Defined.

#[global] Instance Experience_eq_dec : EqDecision Experience.
Proof. solve_decision. Defined.

(** ** The user model (src/unnamed/part_000, [userSchema]) *)

Module User.

(** [otp: { code: String, expiresAt: Date }] *)
Record Otp := mkOtp {
  code : option string;
  expiresAt : option Z
}.

(** [enum: ['earned', 'spent', 'reward', 'purchase']] *)
Inductive TransactionType := earned | spent | reward | purchase.

Record Transaction := mkTransaction {
  type : TransactionType;
  amount : Z;
  description : string;
  date : Z
}.

Record Gamification := mkGamification {
  level : Z;
  experience : Z;
  points : Z;
  streak : Z
}.

Record Wallet := mkWallet {
  balance : Z;
  transactions : list Transaction
}.

Record Location := mkLocation {
  state : option string;
  district : option string
}.

Record FarmingProfile := mkFarmingProfile {
  farmingExperience : option Experience
}.

Record t := mk {
  _id : string;
  role : Role;
  isEmailVerified : bool;
  isPhoneVerified : bool;
  otp : option Otp;
  location : Location;
  farmingProfile : FarmingProfile;
  gamification : Gamification;
  wallet : Wallet;
  isActive : bool
}.

Definition set_otp (u : t) (o : option Otp) : t :=
  mk (_id u) (role u) (isEmailVerified u) (isPhoneVerified u) o
     (location u) (farmingProfile u) (gamification u) (wallet u) (isActive u).

Definition set_ledger (u : t) (g : Gamification) (w : Wallet) : t :=
  mk (_id u) (role u) (isEmailVerified u) (isPhoneVerified u) (otp u)
     (location u) (farmingProfile u) g w (isActive u).

(** The schema defaults of a fresh account:
    [level: 1], [experience: 0], [points: 0], [streak: 0], [balance: 0],
    [role: 'farmer'], [farmingProfile.experience: 'beginner']. *)
Definition create (id : string) : t :=
  mk id farmer false false None (mkLocation None None)
     (mkFarmingProfile (Some beginner))
     (mkGamification 1 0 0 0) (mkWallet 0 []) true.

(** [Math.floor(100000 + Math.random() * 900000).toString()]: [draw] is
    [Math.floor (Math.random () * 900000)], a number of [0 .. 899999]. *)
Definition otpCode (draw : Z) : string := pretty (100000 + draw).

(** [userSchema.methods.generateOTP]: the code, and the account with the
    code stored for ten minutes. *)
Definition generateOTP (u : t) (draw now : Z) : string * t :=
  let otp := otpCode draw in
  (otp, set_otp u (Some (mkOtp (Some otp) (Some (now + 10 * 60 * 1000))))).

(** [!s] on a string path: [undefined] and the empty string are falsy. *)
Definition truthy (s : option string) : bool :=
  match s with
  | Some s => negb (String.eqb s "")
  | None => false
  end.

(** [userSchema.methods.verifyOTP]: the answer, and the account as the
    method leaves it. *)
Definition verifyOTP (u : t) (candidate : string) (now : Z) : bool * t :=
  match otp u with
  | None => (false, u)
  | Some o =>
      if negb (truthy (code o)) then (false, u)
      else
        match expiresAt o with
        | None => (false, u)
        | Some e =>
            if e <? now then (false, u)
            else (bool_decide (code o = Some candidate), u)
        end
  end.

(** [userSchema.methods.clearOTP] *)
Definition clearOTP (u : t) : t := set_otp u None.

(** [userSchema.methods.addPoints (points, description = 'Points earned')];
    the pushed transaction gets its [date] from the schema default
    [Date.now]. *)
Definition addPoints (u : t) (pts : Z) (descr : option string) (now : Z) : t :=
  let g := gamification u in
  let points' := points g + pts in
  let experience' := experience g + pts in
  let newLevel := experience' / 1000 + 1 in
  let level' := if newLevel >? level g then newLevel else level g in
  let w := wallet u in
  set_ledger u
    (mkGamification level' experience' points' (streak g))
    (mkWallet (balance w + pts)
       (transactions w ++
          [mkTransaction earned pts (default "Points earned" descr) now])).

End User.

(** ** The challenge model (src/unnamed/part_002, [challengeSchema]) *)

Module Challenge.

(** [enum: ['pending', 'in_progress', 'completed', 'failed']] *)
Inductive Status := pending | in_progress | completed | failed.

#[global] Instance Status_eq_dec : EqDecision Status.
Proof. solve_decision. Defined.

(** [enum: ['photo', 'document', 'survey', 'video', 'text']] *)
Inductive SubmissionType := photo | document | survey | video | text.

(** A submission as it is stored, [submittedAt] filled in by the schema. *)
Record Submission := mkSubmission {
  type : option SubmissionType;
  content : option string;
  submittedAt : Z
}.

Record Participant := mkParticipant {
  userId : string;
  joinedAt : Z;
  completedAt : option Z;
  status : Status;
  submissions : list Submission;
  pointsEarned : Z
}.

Record EligibilityLocation := mkEligibilityLocation {
  states : list string;
  districts : list string
}.

Record Eligibility := mkEligibility {
  roles : list Role;
  experience : option Experience;
  location : EligibilityLocation
}.

Record Statistics := mkStatistics {
  totalParticipants : Z;
  completedParticipants : Z;
  averageCompletionTime : option Z;
  successRate : option Q
}.

(** The paths of the schema that the methods and the two routes read or
    write; the descriptive ones (category, instructions, resources, ...)
    are carried through unchanged by every operation and are left out. *)
Record t := mk {
  title : string;
  points : Z;
  eligibility : Eligibility;
  participants : list Participant;
  isActive : bool;
  statistics : Statistics
}.

(** What [new Challenge (data)] is given for the paths above; [None] is a
    path that [data] leaves out. *)
Record Data := mkData {
  data_title : string;
  data_points : Z;
  data_roles : option (list Role);
  data_experience : option Experience;
  data_states : option (list string);
  data_districts : option (list string);
  data_isActive : option bool
}.

(** [new Challenge (data)]: the schema defaults fill what [data] leaves
    out ([experience: { default: 'beginner' }], [isActive: { default:
    true }], the counters [{ default: 0 }], arrays empty). *)
Definition create (d : Data) : t :=
  mk (data_title d) (data_points d)
     (mkEligibility
        (default [] (data_roles d))
        (Some (default beginner (data_experience d)))
        (mkEligibilityLocation
           (default [] (data_states d)) (default [] (data_districts d))))
     []
     (default true (data_isActive d))
     (mkStatistics 0 0 None None).

Definition set_participants (c : t) (ps : list Participant) (s : Statistics) : t :=
  mk (title c) (points c) (eligibility c) ps (isActive c) s.

(** [challengeSchema.virtual('completionRate')] *)
Definition completionRate (s : Statistics) : Q :=
  if totalParticipants s =? 0 then inject_Z 0
  else Qmult (Qdiv (inject_Z (completedParticipants s))
                   (inject_Z (totalParticipants s)))
             (inject_Z 100).

(** [this.participants.find (p => p.userId.toString () === userId.toString ())] *)
Definition find (uid : string) (ps : list Participant) : option (nat * Participant) :=
  list_find (λ p, userId p = uid) ps.

(** [challengeSchema.methods.addParticipant]; the pushed entry gets
    [joinedAt], [submissions] and [pointsEarned] from the schema defaults. *)
Definition addParticipant (c : t) (uid : string) (now : Z) : t :=
  match find uid (participants c) with
  | None =>
      let s := statistics c in
      set_participants c
        (participants c ++ [mkParticipant uid now None pending [] 0])
        (mkStatistics (totalParticipants s + 1) (completedParticipants s)
           (averageCompletionTime s) (successRate s))
  | Some _ => c
  end.

(** [challengeSchema.methods.updateParticipantStatus
     (userId, status, submissions = [])]: the entry found is updated in
    place. *)
Definition updateParticipantStatus
    (c : t) (uid : string) (st : Status) (subs : option (list Submission))
    (now : Z) : t :=
  let subs := default [] subs in
  match find uid (participants c) with
  | Some (i, p) =>
      let submissions' :=
        if (0 <? length subs)%nat then subs else submissions p in
      let s := statistics c in
      let '(completedAt', pointsEarned', completed') :=
        if bool_decide (st = completed)
        then (Some now, points c, completedParticipants s + 1)
        else (completedAt p, pointsEarned p, completedParticipants s) in
      let s1 :=
        mkStatistics (totalParticipants s) completed'
          (averageCompletionTime s) (successRate s) in
      set_participants c
        (<[i := mkParticipant (userId p) (joinedAt p) completedAt' st
                  submissions' pointsEarned']> (participants c))
        (mkStatistics (totalParticipants s1) (completedParticipants s1)
           (averageCompletionTime s1) (Some (completionRate s1)))
  | None => c
  end.

(** [list.includes (v)]; [undefined] is in no list of the schema. *)
Definition includes `{EqDecision A} (l : list A) (v : option A) : bool :=
  match v with
  | Some s => bool_decide (s ∈ l)
  | None => false
  end.

(** [if (path && ...)] on a path of an enumeration: [undefined] is falsy,
    every value of the enumeration is truthy. *)
Definition isSet {A} (v : option A) : bool :=
  match v with
  | Some _ => true
  | None => false
  end.

(** [challengeSchema.methods.isEligible] *)
Definition isEligible (c : t) (user : User.t) : bool :=
  let e := eligibility c in
  if (0 <? length (roles e))%nat
     && negb (includes (roles e) (Some (User.role user)))
  then false
  else if isSet (experience e)
          && negb (bool_decide
                     (User.farmingExperience (User.farmingProfile user)
                      = experience e))
  then false
  else if (0 <? length (states (location e)))%nat
          && negb (includes (states (location e))
                     (User.state (User.location user)))
  then false
  else true.

End Challenge.

(** ** The challenge routes (src/community.js, [router.post]) *)

Module Routes.

(** The two collections the routes read with [findById] and write with
    [save]. *)
Record DB := mkDB {
  challenges : gmap string Challenge.t;
  users : gmap string User.t
}.

Definition save_challenge (db : DB) (id : string) (c : Challenge.t) : DB :=
  mkDB (<[id := c]> (challenges db)) (users db).

Definition save_user (db : DB) (id : string) (u : User.t) : DB :=
  mkDB (challenges db) (<[id := u]> (users db)).

(** [res.status (code).json ({ success, message, pointsEarned })] *)
Record Response := mkResponse {
  code : Z;
  success : bool;
  message : string;
  pointsEarned : option Z
}.

Definition ChallengeNotFound : Response :=
  mkResponse 404 false "Challenge not found" None.
Definition ChallengeInactive : Response :=
  mkResponse 400 false "Challenge is not active" None.
Definition AlreadyJoined : Response :=
  mkResponse 400 false "You are already participating in this challenge" None.
Definition NotEligible : Response :=
  mkResponse 400 false "You are not eligible for this challenge" None.
Definition NotParticipant : Response :=
  mkResponse 400 false "You are not participating in this challenge" None.
Definition AlreadyCompleted : Response :=
  mkResponse 400 false "Challenge already completed" None.
Definition ServerError : Response :=
  mkResponse 500 false "Server error" None.
Definition Joined : Response :=
  mkResponse 200 true "Successfully joined the challenge" None.
Definition Submitted (pts : Z) : Response :=
  mkResponse 200 true "Challenge submitted successfully" (Some pts).

(** [challenge.isEligible (user)] on what [User.findById] returned: on
    [null] the first path read of [user] throws, which happens unless
    every guard of the predicate short-circuits. [None] is the throw. *)
Definition isEligible (c : Challenge.t) (user : option User.t) : option bool :=
  match user with
  | Some u => Some (Challenge.isEligible c u)
  | None =>
      let e := Challenge.eligibility c in
      if (0 <? length (Challenge.roles e))%nat
         || Challenge.isSet (Challenge.experience e)
         || (0 <? length (Challenge.states (Challenge.location e)))%nat
      then None
      else Some true
  end.

(** [router.post('/:id/join')] for the authenticated account [uid], from
    the ObjectId [id] that [findById] has cast the path parameter to;
    [joinRequest] below is the route on the parameter. *)
Definition join (db : DB) (id uid : string) (now : Z) : Response * DB :=
  match challenges db !! id with
  | None => (ChallengeNotFound, db)
  | Some challenge =>
      if negb (Challenge.isActive challenge) then (ChallengeInactive, db)
      else
        match Challenge.find uid (Challenge.participants challenge) with
        | Some _ => (AlreadyJoined, db)
        | None =>
            match isEligible challenge (users db !! uid) with
            | None => (ServerError, db)
            | Some false => (NotEligible, db)
            | Some true =>
                (Joined,
                 save_challenge db id
                   (Challenge.addParticipant challenge uid now))
            end
        end
  end.

(** [router.post('/:id/submit')] for the authenticated account [uid], from
    the ObjectId [id] of the path parameter as [join] is; [now] is the time
    of the status update, [later] the time of the award that follows it. *)
Definition submit (db : DB) (id uid : string)
    (submissions : list Challenge.Submission) (now later : Z)
    : Response * DB :=
  match challenges db !! id with
  | None => (ChallengeNotFound, db)
  | Some challenge =>
      match Challenge.find uid (Challenge.participants challenge) with
      | None => (NotParticipant, db)
      | Some (_, participant) =>
          if bool_decide (Challenge.status participant = Challenge.completed)
          then (AlreadyCompleted, db)
          else
            let challenge :=
              Challenge.updateParticipantStatus challenge uid
                Challenge.completed (Some submissions) now in
            let db := save_challenge db id challenge in
            match users db !! uid with
            | None => (ServerError, db)
            | Some user =>
                let user :=
                  User.addPoints user (Challenge.points challenge)
                    (Some ("Completed challenge: " +:+ Challenge.title challenge))
                    later in
                (Submitted (Challenge.points challenge),
                 save_user db uid user)
            end
      end
  end.



End Routes.

(** ** Vocabulary of the specification *)

(** The signed amount of a wallet transaction: earned, reward and purchase
    add, spent subtracts. *)
Definition signedAmount (tx : User.Transaction) : Z :=
  match User.type tx with
  | User.spent => - User.amount tx
  | User.earned | User.reward | User.purchase => User.amount tx
  end.

Definition signedSum (txs : list User.Transaction) : Z :=
  foldr (λ tx acc, signedAmount tx + acc) 0 txs.

(** The wallet invariant: the balance is the signed sum of the log. *)
Definition walletConsistent (u : User.t) : Prop :=
  User.balance (User.wallet u) = signedSum (User.transactions (User.wallet u)).

(** The level rule: [level = floor (experience / 1000) + 1]. *)
Definition levelOf (xp : Z) : Z := xp / 1000 + 1.

Definition levelConsistent (u : User.t) : Prop :=
  User.level (User.gamification u)
  = levelOf (User.experience (User.gamification u)).

(** One [awardPoints] call: amount, description, time. *)
Record Award := mkAward {
  award_amount : Z;
  award_description : option string;
  award_time : Z
}.

Definition award (u : User.t) (a : Award) : User.t :=
  User.addPoints u (award_amount a) (award_description a) (award_time a).

(** The account after a sequence of calls, in order. *)
Definition awardAll (u : User.t) (calls : list Award) : User.t :=
  foldl award u calls.

(** The eligibility rule in the words of the specification: each of the
    three constraints, when present, is met by the account. *)
Definition eligibleSpec (c : Challenge.t) (u : User.t) : Prop :=
  let e := Challenge.eligibility c in
  (Challenge.roles e ≠ [] → User.role u ∈ Challenge.roles e)
  ∧ (∀ x, Challenge.experience e = Some x →
          User.farmingExperience (User.farmingProfile u) = Some x)
  ∧ (Challenge.states (Challenge.location e) ≠ [] →
     ∃ s, User.state (User.location u) = Some s
          ∧ s ∈ Challenge.states (Challenge.location e)).

(** ** Documents of the seed (src/unnamed/part_003) *)

(** The first seeded account ([seedUsers]); [t0] is the time of the seed. *)
Definition rajesh (t0 : Z) : User.t :=
  User.mk "rajesh" farmer true true None
    (User.mkLocation (Some "Punjab") (Some "Amritsar"))
    (User.mkFarmingProfile (Some intermediate))
    (User.mkGamification 5 2500 2500 15)
    (User.mkWallet 2500
       [User.mkTransaction User.earned 100
          "Completed Drip Irrigation Challenge" t0;
        User.mkTransaction User.earned 50 "Email verification bonus" t0])
    true.

(** The first seeded challenge ([seedChallenges]). *)
Definition dripIrrigation : Challenge.t :=
  Challenge.create
    (Challenge.mkData "Drip Irrigation Setup" 100
       (Some [farmer; student]) (Some beginner)
       (Some ["Punjab"; "Haryana"; "Rajasthan"]) (Some []) (Some true)).

(** ** A small store

    One challenge created with nothing but a title and a reward, so that
    every other path has its schema default, and one freshly registered
    account. *)
Definition openChallenge : Challenge.t :=
  Challenge.create (Challenge.mkData "Mulching" 100 None None None None None).

Definition store : Routes.DB :=
  Routes.mkDB {[ "c1" := openChallenge ]} {[ "u1" := User.create "u1" ]}.

(** A photo handed in with a submission. *)
Definition photo1 : Challenge.Submission :=
  Challenge.mkSubmission (Some Challenge.photo) (Some "field.jpg") 5.

(** The store with the account at work on the challenge since time 1, a
    photo already kept in its entry. *)
Definition storeWithDraft : Routes.DB :=
  Routes.mkDB
    {[ "c1" :=
         Challenge.mk "Mulching" 100 (Challenge.eligibility openChallenge)
           [Challenge.mkParticipant "u1" 1 None Challenge.in_progress [photo1] 0]
           true (Challenge.mkStatistics 1 0 None None) ]}
    {[ "u1" := User.create "u1" ]}.

(** The store after the account has joined at time 1 and completed the
    challenge at time 2. *)
Definition storeCompleted : Routes.DB :=
  (Routes.submit (Routes.join store "c1" "u1" 1).2 "c1" "u1" [photo1] 2 3).2.

(** The store after the account has joined at time 1 and the challenge
    has then been made inactive. *)
Definition storeInactive : Routes.DB :=
  Routes.mkDB
    {[ "c1" :=
         Challenge.mk "Mulching" 100 (Challenge.eligibility openChallenge)
           [Challenge.mkParticipant "u1" 1 None Challenge.pending [] 0]
           false (Challenge.mkStatistics 1 0 None None) ]}
    {[ "u1" := User.create "u1" ]}.

(** The store after two accounts have joined at times 1 and 2 and have
    completed the challenge in the other order, at times 4 and 9. *)
Definition storeTwoCompleted : Routes.DB :=
  let db :=
    Routes.mkDB {[ "c1" := openChallenge ]}
      {[ "u1" := User.create "u1"; "u2" := User.create "u2" ]} in
  let db := (Routes.join db "c1" "u1" 1).2 in
  let db := (Routes.join db "c1" "u2" 2).2 in
  let db := (Routes.submit db "c1" "u2" [photo1] 4 5).2 in
  (Routes.submit db "c1" "u1" [photo1] 9 10).2.

(** ** Array and number operations of the language *)

Module Js.

(** [array.slice (start, end)] with integer arguments: a negative index
    counts from the end, both are clamped to the array. *)
Definition slice {A} (l : list A) (start stop : Z) : list A :=
  let len := Z.of_nat (length l) in
  let k := if start <? 0 then Z.max (len + start) 0 else Z.min start len in
  let final := if stop <? 0 then Z.max (len + stop) 0 else Z.min stop len in
  take (Z.to_nat (final - k)) (drop (Z.to_nat k) l).

(** [array.sort (compare)], which is stable: [x] goes behind the elements
    that [compare] puts strictly before it and stays ahead of the others.
    This is the result of the language for a [compare] that orders the
    elements consistently, as the comparison of two dates does. *)
Fixpoint insert {A} (compare : A → A → Z) (x : A) (l : list A) : list A :=
  match l with
  | [] => [x]
  | y :: l' =>
      if compare x y >? 0 then y :: insert compare x l' else x :: y :: l'
  end.

Definition sort {A} (compare : A → A → Z) (l : list A) : list A :=
  foldr (insert compare) [] l.

(** [Math.ceil (n / d)] on integers, as it reaches the JSON of a response:
    the division by 0 gives [Infinity] or [NaN], which [res.json] writes as
    [null]. *)
Definition ceilDiv (n d : Z) : option Z :=
  if d =? 0 then None else Some (- ((- n) / d)).

(** *** [parseInt (string)] without a radix

    The string loses its leading white space and line terminators, then a
    sign, then a prefix [0x] or [0X], which makes the radix 16 instead of
    10; the longest run of digits of the radix that follows is the number
    read, kept as an integer of [Z], and [NaN] ([None]) is the answer when
    that run is empty. The string is taken as the bytes of its UTF-8
    encoding, so that the white space outside ASCII is two or three bytes
    long. *)

Definition code (a : Ascii.ascii) : Z := Z.of_N (Ascii.N_of_ascii a).

(** The white space of one byte: TAB, LF, VT, FF, CR and the space. *)
Definition space1 (a : Z) : bool := ((9 <=? a) && (a <=? 13)) || (a =? 32).

(** Of two bytes: U+00A0. *)
Definition space2 (a b : Z) : bool := (a =? 194) && (b =? 160).

(** Of three bytes: U+1680, U+2000 to U+200A, U+2028, U+2029, U+202F,
    U+205F, U+3000 and U+FEFF. *)
Definition space3 (a b c : Z) : bool :=
  ((a =? 225) && (b =? 154) && (c =? 128))
  || ((a =? 226) && (b =? 128)
      && (((128 <=? c) && (c <=? 138)) || (c =? 168) || (c =? 169)
          || (c =? 175)))
  || ((a =? 226) && (b =? 129) && (c =? 159))
  || ((a =? 227) && (b =? 128) && (c =? 128))
  || ((a =? 239) && (b =? 187) && (c =? 191)).

Fixpoint trimStart (s : string) : string :=
  match s with
  | String a s1 =>
      if space1 (code a) then trimStart s1
      else
        match s1 with
        | String b s2 =>
            if space2 (code a) (code b) then trimStart s2
            else
              match s2 with
              | String c s3 =>
                  if space3 (code a) (code b) (code c) then trimStart s3
                  else s
              | EmptyString => s
              end
        | EmptyString => s
        end
  | EmptyString => s
  end.

(** The value of a character as a digit of the radix: [0 .. 9], then the
    letters of either case from 10 on. *)
Definition digit (radix : Z) (a : Ascii.ascii) : option Z :=
  let n := code a in
  let value :=
    if (48 <=? n) && (n <=? 57) then Some (n - 48)
    else if (97 <=? n) && (n <=? 122) then Some (n - 87)
    else if (65 <=? n) && (n <=? 90) then Some (n - 55)
    else None in
  match value with
  | Some d => if d <? radix then Some d else None
  | None => None
  end.

(** The number that the leading digits of [s] spell after those already
    read, which gave [acc]. *)
Fixpoint digits (radix : Z) (acc : option Z) (s : string) : option Z :=
  match s with
  | String a s' =>
      match digit radix a with
      | Some d => digits radix (Some (default 0 acc * radix + d)) s'
      | None => acc
      end
  | EmptyString => acc
  end.

Definition sign (s : string) : Z * string :=
  match s with
  | String a s' =>
      if code a =? 45 then (-1, s')
      else if code a =? 43 then (1, s')
      else (1, s)
  | EmptyString => (1, s)
  end.

Definition radix (s : string) : Z * string :=
  match s with
  | String a (String b s') =>
      if (code a =? 48) && ((code b =? 120) || (code b =? 88)) then (16, s')
      else (10, s)
  | _ => (10, s)
  end.

Definition parseInt (s : string) : option Z :=
  let '(sign, s) := sign (trimStart s) in
  let '(radix, s) := radix s in
  (λ n, sign * n) <$> digits radix None s.

(** Whether a string begins with a decimal digit. *)
Definition startsWithDigit (s : string) : bool :=
  match s with
  | String a _ => bool_decide (is_Some (digit 10 a))
  | EmptyString => false
  end.

End Js.

(** ** The verification routes (src/auth.js, [router.post]) *)

Module Auth.

Definition set_verified (u : User.t) (email phone : bool) : User.t :=
  User.mk (User._id u) (User.role u) email phone (User.otp u)
    (User.location u) (User.farmingProfile u) (User.gamification u)
    (User.wallet u) (User.isActive u).

Definition ValidationFailed : Routes.Response :=
  Routes.mkResponse 400 false "Validation failed" None.
Definition InvalidOTP : Routes.Response :=
  Routes.mkResponse 400 false "Invalid or expired OTP" None.
Definition EmailVerified : Routes.Response :=
  Routes.mkResponse 200 true "Email verified successfully" None.
Definition PhoneVerified : Routes.Response :=
  Routes.mkResponse 200 true "Phone verified successfully" None.
Definition EmailAlreadyVerified : Routes.Response :=
  Routes.mkResponse 400 false "Email is already verified" None.
Definition EmailOtpSent : Routes.Response :=
  Routes.mkResponse 200 true "OTP sent to your email" None.
Definition SendFailed : Routes.Response :=
  Routes.mkResponse 500 false "Failed to send OTP" None.

(** [body('otp').isLength({ min: 6, max: 6 })], a string being the sequence
    of its characters. *)
Definition validOtp (otp : string) : bool := (String.length otp =? 6)%nat.

(** [router.post('/send-email-otp')] on the account of the request;
    [delivered] tells whether [sendOTPEmail] returns or throws. The account
    returned is the one saved. *)
Definition sendEmailOTP (user : User.t) (draw now : Z) (delivered : bool)
    : Routes.Response * User.t :=
  if User.isEmailVerified user then (EmailAlreadyVerified, user)
  else
    let '(otp, user) := User.generateOTP user draw now in
    if delivered then (EmailOtpSent, user) else (SendFailed, user).

(** [router.post('/verify-email-otp')]; [now] is the time of the check,
    [later] the time of the award. *)
Definition verifyEmailOTP (user : User.t) (otp : string) (now later : Z)
    : Routes.Response * User.t :=
  if negb (validOtp otp) then (ValidationFailed, user)
  else
    let '(isValidOTP, user) := User.verifyOTP user otp now in
    if negb isValidOTP then (InvalidOTP, user)
    else
      let user := set_verified user true (User.isPhoneVerified user) in
      let user := User.clearOTP user in
      let user :=
        User.addPoints user 50 (Some "Email verification bonus") later in
      (EmailVerified, user).

(** [router.post('/verify-phone-otp')] *)
Definition verifyPhoneOTP (user : User.t) (otp : string) (now later : Z)
    : Routes.Response * User.t :=
  if negb (validOtp otp) then (ValidationFailed, user)
  else
    let '(isValidOTP, user) := User.verifyOTP user otp now in
    if negb isValidOTP then (InvalidOTP, user)
    else
      let user := set_verified user (User.isEmailVerified user) true in
      let user := User.clearOTP user in
      let user :=
        User.addPoints user 50 (Some "Phone verification bonus") later in
      (PhoneVerified, user).

End Auth.

(** ** The rewards routes (src/auth.js, second part, [router.get]) *)

Module Rewards.

#[global] Instance TransactionType_eq_dec : EqDecision User.TransactionType.
Proof. solve_decision. Defined.

(** [transactions.filter (t => t.type === kind)
       .reduce ((sum, t) => sum + t.amount, 0)] *)
Definition total (kind : User.TransactionType) (txs : list User.Transaction) : Z :=
  foldl (λ sum t, sum + User.amount t) 0
    (filter (λ t, User.type t = kind) txs).

Record Wallet := mkWallet {
  balance : Z;
  totalEarned : Z;
  totalSpent : Z
}.

(** [router.get('/wallet')]; [None] is the answer 500, given when the
    account is not found. *)
Definition wallet (db : Routes.DB) (uid : string) : option Wallet :=
  match Routes.users db !! uid with
  | None => None
  | Some user =>
      Some (mkWallet (User.balance (User.wallet user))
              (total User.earned (User.transactions (User.wallet user)))
              (total User.spent (User.transactions (User.wallet user))))
  end.

Record Page := mkPage {
  items : list User.Transaction;
  current : Z;
  pages : option Z;
  total_items : Z
}.

(** The comparison of the route: the later date first. *)
Definition newestFirst (a b : User.Transaction) : Z := User.date b - User.date a.

(** [router.get('/transactions')] with the numbers of the query ([page = 1]
    and [limit = 20] when left out); [None] is the answer 500. *)
Definition transactions (db : Routes.DB) (uid : string) (page limit : option Z)
    : option Page :=
  let page := default 1 page in
  let limit := default 20 limit in
  match Routes.users db !! uid with
  | None => None
  | Some user =>
      let sorted := Js.sort newestFirst (User.transactions (User.wallet user)) in
      Some (mkPage (Js.slice sorted ((page - 1) * limit) (page * limit))
              page
              (Js.ceilDiv (Z.of_nat (length sorted)) limit)
              (Z.of_nat (length sorted)))
  end.

End Rewards.

(** ** The leaderboard routes (src/unnamed/part_000, [router.get]) *)

Module Leaderboard.

(** [User.countDocuments ({ 'gamification.points': { $gt: userPoints },
                            isActive: true })] *)
Definition higherRanked (db : Routes.DB) (userPoints : Z) : nat :=
  size (filter (λ kv : string * User.t,
                  userPoints < User.points (User.gamification kv.2)
                  ∧ User.isActive kv.2 = true)
          (Routes.users db)).

(** The answer of the route, without its count of badges, of which the
    model of the account carries none. *)
Record Rank := mkRank {
  rank : Z;
  points : Z;
  level : Z
}.

(** [router.get('/user-rank')]; [None] is the answer 500, given when the
    account is not found. *)
Definition userRank (db : Routes.DB) (uid : string) : option Rank :=
  match Routes.users db !! uid with
  | None => None
  | Some user =>
      let userPoints := User.points (User.gamification user) in
      Some (mkRank (Z.of_nat (higherRanked db userPoints) + 1) userPoints
              (User.level (User.gamification user)))
  end.

End Leaderboard.

(** ** Consistency of a challenge document

    What the two routes keep true of every challenge they save. *)

(** At most one entry per account. *)
Definition entriesUnique (c : Challenge.t) : Prop :=
  NoDup (Challenge.userId <$> Challenge.participants c).

Definition completedEntries (ps : list Challenge.Participant)
    : list Challenge.Participant :=
  filter (λ p, Challenge.status p = Challenge.completed) ps.

(** The two counters count the entries and the completed entries. *)
Definition countersCount (c : Challenge.t) : Prop :=
  Challenge.totalParticipants (Challenge.statistics c)
  = Z.of_nat (length (Challenge.participants c))
  ∧ Challenge.completedParticipants (Challenge.statistics c)
    = Z.of_nat (length (completedEntries (Challenge.participants c))).

(** A completed entry carries the reward of the challenge and the time of
    its completion, any other entry carries neither. *)
Definition entryRule (c : Challenge.t) (p : Challenge.Participant) : Prop :=
  if decide (Challenge.status p = Challenge.completed)
  then Challenge.pointsEarned p = Challenge.points c
       ∧ is_Some (Challenge.completedAt p)
  else Challenge.pointsEarned p = 0 ∧ Challenge.completedAt p = None.

Definition entriesFollowRule (c : Challenge.t) : Prop :=
  Forall (entryRule c) (Challenge.participants c).

(** A property of every challenge of a store. *)
Definition everyChallenge (P : Challenge.t → Prop) (db : Routes.DB) : Prop :=
  ∀ id c, Routes.challenges db !! id = Some c → P c.

(** ** The community routes (src/community.js, first part) *)

Module Community.

(** An element of [communityPosts], the array the module keeps in memory. *)
Record Post := mkPost {
  id : Z;
  authorId : string;
  author : string;
  avatar : string;
  title : string;
  content : string;
  category : string;
  likes : Z;
  comments : Z;
  createdAt : Z;
  image : string
}.

(** The paths of the account that the route of a new post reads. *)
Record Author := mkAuthor {
  firstName : string;
  lastName : string;
  profileImage : string
}.

(** The array as the module is loaded at time [t0]. *)
Definition communityPosts (t0 : Z) : list Post :=
  [ mkPost 1 "user1" "Rajesh Kumar" "👨‍🌾"
      "Success with Drip Irrigation System"
      "Just completed the drip irrigation setup challenge! Water usage reduced by 40% and crop yield increased significantly. Highly recommend this sustainable practice!"
      "success_story" 24 8 (t0 - 2 * 60 * 60 * 1000) "🌊";
    mkPost 2 "user2" "Priya Sharma" "👩‍🌾"
      "Compost Making Tips"
      "Looking for advice on making organic compost. What materials work best for vegetable farming? Any specific ratios you recommend?"
      "question" 12 15 (t0 - 4 * 60 * 60 * 1000) "🍂" ].

Inductive Answer :=
| Created (post : Post)
| Liked (likes : Z)
| Failed (code : Z) (message : string).

(** [body('category').isIn(['question', 'success_story', 'guide', 'tips'])] *)
Definition categoryValues : list string :=
  ["question"; "success_story"; "guide"; "tips"].

(** The three validators of a new post; [notEmpty] accepts every string
    but the empty one. *)
Definition validPost (title content category : string) : bool :=
  negb (String.eqb title "") && negb (String.eqb content "")
  && bool_decide (category ∈ categoryValues).

(** [router.post('/posts')]; [user] is what [User.findById] returned, and a
    read of a path of [null] ends in the answer 500. *)
Definition createPost (posts : list Post) (uid : string) (user : option Author)
    (title content category : string) (now : Z) : Answer * list Post :=
  if negb (validPost title content category)
  then (Failed 400 "Validation failed", posts)
  else
    match user with
    | None => (Failed 500 "Server error", posts)
    | Some user =>
        let newPost :=
          mkPost (Z.of_nat (length posts) + 1) uid
            (firstName user +:+ " " +:+ lastName user)
            (if String.eqb (profileImage user) "" then "👤" else "📷")
            title content category 0 0 now "🌱" in
        (Created newPost, newPost :: posts)
    end.

(** [router.post('/posts/:id/like')] from [postId] on, which is [parseInt
    (req.params.id)], [None] when that is [NaN], which equals the id of no
    post; [like] below is the route on the parameter. *)
Definition likePost (posts : list Post) (postId : option Z)
    : Answer * list Post :=
  match list_find (λ p, Some (id p) = postId) posts with
  | None => (Failed 404 "Post not found", posts)
  | Some (i, post) =>
      let post :=
        mkPost (id post) (authorId post) (author post) (avatar post)
          (title post) (content post) (category post) (likes post + 1)
          (comments post) (createdAt post) (image post) in
      (Liked (likes post), <[i := post]> posts)
  end.

(** The route on its path parameter. *)
Definition like (posts : list Post) (param : string) : Answer * list Post :=
  likePost posts (Js.parseInt param).

Record Category := mkCategory {
  value : string;
  label : string;
  count : nat
}.

Definition countOf (posts : list Post) (c : string) : nat :=
  length (filter (λ p, category p = c) posts).

(** [router.get('/categories')] *)
Definition categories (posts : list Post) : list Category :=
  [ mkCategory "all" "All Posts" (length posts);
    mkCategory "question" "Questions" (countOf posts "question");
    mkCategory "success_story" "Success Stories" (countOf posts "success_story");
    mkCategory "guide" "Guides" (countOf posts "guide");
    mkCategory "tips" "Tips & Tricks" (countOf posts "tips") ].

Record Page := mkPage {
  items : list Post;
  current : Z;
  pages : option Z;
  total : Z
}.

Definition newestFirst (a b : Post) : Z := createdAt b - createdAt a.

(** [router.get('/posts')] with the numbers of the query ([page = 1] and
    [limit = 10] when left out); the array of the module is copied before
    it is filtered and sorted. *)
Definition getPosts (posts : list Post) (category : option string)
    (page limit : option Z) : Page :=
  let page := default 1 page in
  let limit := default 10 limit in
  let posts :=
    if User.truthy category && negb (bool_decide (category = Some "all"))
    then filter (λ p, Some (Community.category p) = category) posts
    else posts in
  let posts := Js.sort newestFirst posts in
  let startIndex := (page - 1) * limit in
  let endIndex := startIndex + limit in
  mkPage (Js.slice posts startIndex endIndex) page
    (Js.ceilDiv (Z.of_nat (length posts)) limit)
    (Z.of_nat (length posts)).

End Community.

(** ** Views of a challenge
    (src/unnamed/part_002, [challengeSchema.virtual('daysRemaining')]) *)

Module ChallengeViews.

(** [Math.ceil (a / b)] for a positive [b]. *)
Definition ceil (a b : Z) : Z := - ((- a) / b).

(** The virtual [daysRemaining] of a challenge with [duration.endDate =
    endDate], read at time [now]; [None] is [null]. *)
Definition daysRemaining (endDate : option Z) (now : Z) : option Z :=
  match endDate with
  | None => None
  | Some endDate =>
      let diffTime := endDate - now in
      let diffDays := ceil diffTime (1000 * 60 * 60 * 24) in
      Some (if diffDays >? 0 then diffDays else 0)
  end.

End ChallengeViews.

(** ** The farming profile route (src/unnamed/part_004, [router.put]) *)

Module Profile.

Record FarmingUpdate := mkFarmingUpdate {
  experience : option Experience;
  state : option string;
  district : option string
}.

Record Answer := mkAnswer {
  farmingProfile : User.FarmingProfile;
  location : User.Location
}.

(** [if (value) updateData[path] = value]: a string that is left out or
    empty writes nothing. *)
Definition update (value stored : option string) : option string :=
  if User.truthy value then value else stored.

(** [router.put('/farming-profile')] for the paths of the account that the
    models here carry; [findByIdAndUpdate] writes the paths given and
    returns the new document, [null] when the account is not found, which
    ends in the answer 500 ([None]). *)
Definition updateFarmingProfile (db : Routes.DB) (uid : string)
    (body : FarmingUpdate) : option Answer * Routes.DB :=
  match Routes.users db !! uid with
  | None => (None, db)
  | Some user =>
      let farming :=
        User.mkFarmingProfile
          (match experience body with
           | Some e => Some e
           | None => User.farmingExperience (User.farmingProfile user)
           end) in
      let place :=
        User.mkLocation
          (update (state body) (User.state (User.location user)))
          (update (district body) (User.district (User.location user))) in
      let user :=
        User.mk (User._id user) (User.role user) (User.isEmailVerified user)
          (User.isPhoneVerified user) (User.otp user) place farming
          (User.gamification user) (User.wallet user) (User.isActive user) in
      (Some (mkAnswer farming place), Routes.save_user db uid user)
  end.

End Profile.

(** ** Consistency of the array of posts *)

(** The ids of the posts are distinct numbers of [1 .. length]. *)
Definition postIds (posts : list Community.Post) : Prop :=
  NoDup (Community.id <$> posts)
  ∧ ∀ p, p ∈ posts → 1 ≤ Community.id p ≤ Z.of_nat (length posts).

(** Every post has one of the four categories of the validator. *)
Definition postCategories (posts : list Community.Post) : Prop :=
  Forall (λ p, Community.category p ∈ Community.categoryValues) posts.

(** The array after [n] requests to like, each with the path parameter
    [param]. *)
Definition likeTimes (n : nat) (param : string) (posts : list Community.Post)
    : list Community.Post :=
  Nat.iter n (λ posts, (Community.like posts param).2) posts.

(** ** The leaderboard of a challenge (src/community.js, [router.get]) *)

Module ChallengeBoard.

Record Entry := mkEntry {
  rank : Z;
  user : string;
  pointsEarned : Z;
  completedAt : option Z
}.

(** [res.json ({ success: true, leaderboard })], or the status and the
    message of a failure. *)
Inductive Answer :=
| Board (leaderboard : list Entry)
| Failed (code : Z) (message : string).

(** The comparison of the route: by the time of completion when both
    entries have one, by the points otherwise. *)
Definition compare (a b : Challenge.Participant) : Z :=
  match Challenge.completedAt a, Challenge.completedAt b with
  | Some x, Some y => x - y
  | _, _ => Challenge.pointsEarned b - Challenge.pointsEarned a
  end.

(** [router.get('/:id/leaderboard')] on its path parameter, [None] when
    the cast of [findById] throws. The account that [populate] puts in the
    place of [userId] is named here by that id. *)
Definition leaderboard (db : Routes.DB) (param : option string) : Answer :=
  match param with
  | None => Failed 500 "Server error"
  | Some id =>
      match Routes.challenges db !! id with
      | None => Failed 404 "Challenge not found"
      | Some challenge =>
          Board
            (imap (λ index participant,
                     mkEntry (Z.of_nat index + 1)
                       (Challenge.userId participant)
                       (Challenge.pointsEarned participant)
                       (Challenge.completedAt participant))
               (Js.sort compare
                  (filter (λ p, Challenge.status p = Challenge.completed)
                     (Challenge.participants challenge))))
      end
  end.

End ChallengeBoard.

(** * Properties *)

(** ** The gamification ledger *)

Section Ledger.

Implicit Types (u : User.t) (a : Award) (calls : list Award).

Lemma signedSum_snoc (txs : list User.Transaction) tx :
  signedSum (txs ++ [tx]) = signedSum txs + signedAmount tx.
Proof.
  unfold signedSum.
  induction txs as [|tx' txs IH]; simpl; [lia | rewrite IH; lia].
Qed.

Lemma addPoints_points u pts d now :
  User.points (User.gamification (User.addPoints u pts d now))
  = User.points (User.gamification u) + pts.
Proof. reflexivity. Qed.

Lemma addPoints_experience u pts d now :
  User.experience (User.gamification (User.addPoints u pts d now))
  = User.experience (User.gamification u) + pts.
Proof. reflexivity. Qed.

Lemma addPoints_balance u pts d now :
  User.balance (User.wallet (User.addPoints u pts d now))
  = User.balance (User.wallet u) + pts.
Proof. reflexivity. Qed.

Lemma addPoints_transactions u pts d now :
  User.transactions (User.wallet (User.addPoints u pts d now))
  = User.transactions (User.wallet u)
    ++ [User.mkTransaction User.earned pts (default "Points earned" d) now].
Proof. reflexivity. Qed.

(** The level after a call is the larger of the old level and the level
    of the new experience. *)
Lemma addPoints_level u pts d now :
  User.level (User.gamification (User.addPoints u pts d now))
  = Z.max (User.level (User.gamification u))
          (levelOf (User.experience (User.gamification u) + pts)).
Proof.
  unfold User.addPoints, levelOf; simpl.
  destruct (Z.gtb_spec
              ((User.experience (User.gamification u) + pts) / 1000 + 1)
              (User.level (User.gamification u))); lia.
Qed.

Lemma addPoints_level_mono u pts d now :
  User.level (User.gamification u)
  ≤ User.level (User.gamification (User.addPoints u pts d now)).
Proof. rewrite addPoints_level. lia. Qed.

Lemma levelOf_mono x y : x ≤ y → levelOf x ≤ levelOf y.
Proof. intros. unfold levelOf. pose proof (Z.div_le_mono x y 1000). lia. Qed.

Lemma award_walletConsistent u a :
  walletConsistent u → walletConsistent (award u a).
Proof.
  unfold walletConsistent, award. intros Hu.
  rewrite addPoints_balance, addPoints_transactions, signedSum_snoc, Hu.
  reflexivity.
Qed.

Lemma awardAll_snoc u calls a :
  awardAll u (calls ++ [a]) = award (awardAll u calls) a.
Proof. unfold awardAll. by rewrite foldl_app. Qed.

(** An invariant of single calls holds after every prefix of a sequence. *)
Lemma awardAll_invariant (P : User.t → Prop) (G : Award → Prop) u calls :
  (∀ v a, G a → P v → P (award v a)) →
  Forall G calls → P u → ∀ k, P (awardAll u (take k calls)).
Proof.
  intros Hstep HG Hu.
  induction calls as [|a calls IH] using rev_ind; intros k.
  - by destruct k.
  - apply Forall_app in HG as [HG Ha]. rewrite Forall_singleton in Ha.
    destruct (decide (k ≤ length calls)%nat) as [Hk|Hk].
    + rewrite take_app_le by done. exact (IH HG k).
    + rewrite take_ge by (rewrite length_app; simpl; lia).
      rewrite awardAll_snoc. apply Hstep; [done|].
      specialize (IH HG (length calls)). by rewrite firstn_all in IH.
Qed.

Lemma awardAll_step u calls k a :
  calls !! k = Some a →
  awardAll u (take (S k) calls) = award (awardAll u (take k calls)) a.
Proof. intros Hk. by rewrite (take_S_r _ _ _ Hk), awardAll_snoc. Qed.

(** C2. If the wallet balance of an account equals the signed sum of its
    transaction log (earned, reward and purchase add, spent subtracts),
    then after every call of a sequence of [addPoints] calls it still
    does; and each call appends exactly one transaction, of kind earned
    and of the awarded amount. [k] counts the calls made so far. *)
Theorem wallet_balance_is_signed_sum u calls :
  walletConsistent u →
  ∀ k,
    walletConsistent (awardAll u (take k calls))
    ∧ ∀ a, calls !! k = Some a →
        ∃ tx,
          User.transactions (User.wallet (awardAll u (take (S k) calls)))
          = User.transactions (User.wallet (awardAll u (take k calls))) ++ [tx]
          ∧ User.type tx = User.earned
          ∧ User.amount tx = award_amount a.
Proof.
  intros Hu k. split.
  - apply (awardAll_invariant walletConsistent (λ _, True)); [|by apply Forall_true|done].
    intros v a _. apply award_walletConsistent.
  - intros a Hk. rewrite (awardAll_step _ _ _ _ Hk). unfold award.
    rewrite addPoints_transactions. eexists. split; [reflexivity|done].
Qed.

Lemma wallet_balance_is_signed_sum_witness :
  let calls :=
    [mkAward 1000 None 10; mkAward 50 (Some "Email verification bonus") 20] in
  let u := User.create "u1" in
  walletConsistent (awardAll u (take 1 calls))
  ∧ ∃ tx,
      User.transactions (User.wallet (awardAll u (take 2 calls)))
      = User.transactions (User.wallet (awardAll u (take 1 calls))) ++ [tx]
      ∧ User.type tx = User.earned
      ∧ User.amount tx = 50.
Proof.
  destruct (wallet_balance_is_signed_sum (User.create "u1")
              [mkAward 1000 None 10;
               mkAward 50 (Some "Email verification bonus") 20]
              eq_refl 1%nat) as [Hinv Hlog].
  split; [exact Hinv|].
  exact (Hlog (mkAward 50 (Some "Email verification bonus") 20) eq_refl).
Defined.

(** The scenario of the specification: a fresh account awarded 1000
    points reaches level 2 with balance 1000 and one earned transaction
    of 1000. *)
Example award_1000_to_fresh_account :
  let u := User.addPoints (User.create "u1") 1000 None 10 in
  User.level (User.gamification u) = 2
  ∧ User.balance (User.wallet u) = 1000
  ∧ User.transactions (User.wallet u)
    = [User.mkTransaction User.earned 1000 "Points earned" 10].
Proof. by vm_compute. Qed.

(** C3, as stated, fails: the seeded account has level 5 with experience
    2500, and the verification bonus of 50 leaves the level at 5 while
    floor (2550 / 1000) + 1 is 3. *)
Lemma level_rule_fails_on_seeded_account :
  let u := awardAll (rajesh 0) [mkAward 50 (Some "Email verification bonus") 1] in
  User.level (User.gamification u) = 5
  ∧ User.experience (User.gamification u) / 1000 + 1 = 3
  ∧ ¬ levelConsistent u.
Proof. by vm_compute. Qed.

(** C3, amended. Across any sequence of [addPoints] calls the level never
    decreases, and after every call it is the larger of the level before
    the call and floor (experience / 1000) + 1; it equals
    floor (experience / 1000) + 1 after every call when the account
    started with a level of at most floor (experience / 1000) + 1 and no
    amount of the sequence is negative. *)
Theorem level_never_decreases u calls :
  (∀ k a, calls !! k = Some a →
     let v := awardAll u (take k calls) in
     let v' := awardAll u (take (S k) calls) in
     User.level (User.gamification v) ≤ User.level (User.gamification v')
     ∧ User.level (User.gamification v')
       = Z.max (User.level (User.gamification v))
               (levelOf (User.experience (User.gamification v'))))
  ∧ (User.level (User.gamification u)
       ≤ levelOf (User.experience (User.gamification u)) →
     Forall (λ a, 0 ≤ award_amount a) calls →
     ∀ k a, calls !! k = Some a →
       levelConsistent (awardAll u (take (S k) calls))).
Proof.
  split.
  - intros k a Hk. cbn zeta. rewrite (awardAll_step _ _ _ _ Hk). unfold award.
    split; [apply addPoints_level_mono|].
    by rewrite addPoints_level, addPoints_experience.
  - intros Hu Hpos k a Hlook.
    assert (User.level (User.gamification (awardAll u (take k calls)))
            ≤ levelOf (User.experience
                         (User.gamification (awardAll u (take k calls)))))
      as Hle.
    { apply (awardAll_invariant
               (λ v, User.level (User.gamification v)
                     ≤ levelOf (User.experience (User.gamification v)))
               (λ a, 0 ≤ award_amount a)); [|done..].
      intros v b Hb Hv. unfold award.
      rewrite addPoints_level, addPoints_experience.
      pose proof (levelOf_mono (User.experience (User.gamification v))
                    (User.experience (User.gamification v) + award_amount b)).
      lia. }
    rewrite (awardAll_step _ _ _ _ Hlook). unfold levelConsistent, award.
    rewrite addPoints_level, addPoints_experience.
    pose proof (Forall_lookup_1 _ _ _ _ Hpos Hlook) as Ha; simpl in Ha.
    pose proof (levelOf_mono
                  (User.experience (User.gamification (awardAll u (take k calls))))
                  (User.experience (User.gamification (awardAll u (take k calls)))
                   + award_amount a)).
    lia.
Qed.

Lemma level_never_decreases_witness :
  let calls := [mkAward 1000 None 10; mkAward 50 None 20] in
  let u := User.create "u1" in
  User.level (User.gamification (awardAll u (take 1 calls)))
  ≤ User.level (User.gamification (awardAll u (take 2 calls)))
  ∧ levelConsistent (awardAll u (take 2 calls)).
Proof.
  destruct (level_never_decreases (User.create "u1")
              [mkAward 1000 None 10; mkAward 50 None 20]) as [Hmono Hrule].
  split.
  - exact (proj1 (Hmono 1%nat (mkAward 50 None 20) eq_refl)).
  - apply (Hrule ltac:(vm_compute; discriminate)
                 ltac:(repeat constructor; vm_compute; discriminate)
                 1%nat (mkAward 50 None 20) eq_refl).
Defined.

(** C4, as stated, fails: [addPoints] has no check of the amount. An
    award of 0 to a fresh account appends a transaction, an award of -5
    leaves it with -5 points and a balance of -5. *)
Lemma addPoints_accepts_non_positive_amounts :
  let u := User.create "u1" in
  User.transactions (User.wallet (User.addPoints u 0 None 10))
  ≠ User.transactions (User.wallet u)
  ∧ User.transactions (User.wallet (User.addPoints u 0 None 10))
    = [User.mkTransaction User.earned 0 "Points earned" 10]
  ∧ User.points (User.gamification (User.addPoints u (-5) None 10)) = -5
  ∧ User.balance (User.wallet (User.addPoints u (-5) None 10)) = -5.
Proof. by vm_compute. Qed.

(** C4, amended. [addPoints] does not validate the amount and has no
    failing outcome: for every account and every amount <= 0 the call
    goes through as for any other amount. Points, experience and wallet
    balance each change by the amount, one earned transaction of that
    amount is appended to the log, the level becomes the larger of the
    old level and floor (experience / 1000) + 1, and the account is not
    left as it was. *)
Theorem addPoints_non_positive_amount u pts d now :
  pts ≤ 0 →
  let u' := User.addPoints u pts d now in
  User.points (User.gamification u') = User.points (User.gamification u) + pts
  ∧ User.experience (User.gamification u')
    = User.experience (User.gamification u) + pts
  ∧ User.balance (User.wallet u') = User.balance (User.wallet u) + pts
  ∧ User.transactions (User.wallet u')
    = User.transactions (User.wallet u)
      ++ [User.mkTransaction User.earned pts (default "Points earned" d) now]
  ∧ User.level (User.gamification u')
    = Z.max (User.level (User.gamification u))
            (levelOf (User.experience (User.gamification u')))
  ∧ u' ≠ u.
Proof.
  intros _ u'. subst u'.
  repeat split; try reflexivity.
  - by rewrite addPoints_level, addPoints_experience.
  - intros Heq. apply (f_equal (λ v, length (User.transactions (User.wallet v)))) in Heq.
    rewrite addPoints_transactions, length_app in Heq. simpl in Heq. lia.
Qed.

Lemma addPoints_non_positive_amount_witness :
  let u := rajesh 0 in
  let u' := User.addPoints u (-500) None 10 in
  User.points (User.gamification u') = 2500 + -500
  ∧ User.experience (User.gamification u') = 2500 + -500
  ∧ User.balance (User.wallet u') = 2500 + -500
  ∧ User.transactions (User.wallet u')
    = User.transactions (User.wallet u)
      ++ [User.mkTransaction User.earned (-500) "Points earned" 10]
  ∧ User.level (User.gamification u')
    = Z.max 5 (levelOf (User.experience (User.gamification u')))
  ∧ u' ≠ u.
Proof.
  exact (addPoints_non_positive_amount (rajesh 0) (-500) None 10
           ltac:(vm_compute; discriminate)).
Defined.

End Ledger.

(** ** The OTP rules *)

Section Otp.

Implicit Types (u : User.t) (candidate : string) (now : Z).

Lemma pretty_N_go_length (x : N) (s : string) :
  (String.length s ≤ String.length (pretty_N_go x s))%nat.
Proof.
  revert s. induction (N.lt_wf_0 x) as [x _ IH]; intros s.
  destruct (decide (x = 0%N)) as [->|Hx]; [by rewrite pretty_N_go_0|].
  rewrite pretty_N_go_step by lia.
  etrans; [|apply IH, N.div_lt; lia]. simpl; lia.
Qed.

Lemma pretty_N_nonempty (x : N) : pretty x ≠ "".
Proof.
  unfold pretty, pretty_N. case_decide as Hx; [done|].
  rewrite pretty_N_go_step by lia.
  intros Heq.
  pose proof (pretty_N_go_length (x `div` 10)
                (String (pretty_N_char (x `mod` 10)) "")) as Hlen.
  rewrite Heq in Hlen. simpl in Hlen. lia.
Qed.

(** The decimal numeral of an integer has at least one character, so a
    generated code is truthy. *)
Lemma otpCode_truthy (draw : Z) : User.truthy (Some (User.otpCode draw)) = true.
Proof.
  unfold User.truthy, User.otpCode.
  apply negb_true_iff, String.eqb_neq.
  unfold pretty, pretty_Z.
  destruct (100000 + draw) as [|p|p]; [done|apply pretty_N_nonempty|done].
Qed.

Lemma truthy_Some (c : string) : User.truthy (Some c) = true ↔ c ≠ "".
Proof. unfold User.truthy. by rewrite negb_true_iff, String.eqb_neq. Qed.

(** [verifyOTP] answers true exactly when a non-empty code is stored with
    an expiry that is not before [now], and the candidate is that code. *)
Lemma verifyOTP_true u candidate now :
  (User.verifyOTP u candidate now).1 = true
  ↔ ∃ e, User.otp u = Some (User.mkOtp (Some candidate) (Some e))
         ∧ candidate ≠ "" ∧ now ≤ e.
Proof.
  unfold User.verifyOTP.
  destruct (User.otp u) as [[c e]|]; simpl;
    [|split; [done | by intros (? & [=] & _)]].
  destruct (User.truthy c) eqn:Hc; simpl; [|].
  - destruct c as [c|]; [|done]. apply truthy_Some in Hc.
    destruct e as [e|]; simpl; [|split; [done | by intros (? & [=] & _)]].
    destruct (Z.ltb_spec e now); simpl.
    + split; [done|]. intros (e' & [= -> ->] & _ & ?). lia.
    + rewrite bool_decide_eq_true. split.
      * intros [= ->]. eauto.
      * by intros (e' & [= -> ->] & _ & _).
  - split; [done|]. intros (e' & [= -> ->] & Hne & _).
    apply truthy_Some in Hne. congruence.
Qed.

Lemma verifyOTP_pure u candidate now : (User.verifyOTP u candidate now).2 = u.
Proof.
  unfold User.verifyOTP.
  repeat (case_match; simpl; try done).
Qed.

(** C5, as stated, fails at the instant of expiry: a code generated at
    time 0 expires at 600000, and the correct candidate presented at
    exactly 600000 is accepted. *)
Lemma verifyOTP_accepts_at_expiry :
  let g := User.generateOTP (User.create "u1") 23456 0 in
  g.1 = "123456"
  ∧ User.otp g.2 = Some (User.mkOtp (Some "123456") (Some 600000))
  ∧ (User.verifyOTP g.2 "123456" 600000).1 = true.
Proof. by vm_compute. Qed.

(** C5, amended. [verifyOTP] returns true exactly when a non-empty code
    is stored together with an expiry, the current time is not after the
    expiry (now <= expiresAt, so at now = expiresAt it still succeeds)
    and the candidate equals the stored code; it never modifies the
    account. In particular the generated code is rejected 11 minutes
    after generation and accepted 5 minutes after it. *)
Theorem verifyOTP_spec u candidate now :
  ((User.verifyOTP u candidate now).1 = true
   ↔ ∃ c e, User.otp u = Some (User.mkOtp (Some c) (Some e))
            ∧ c ≠ "" ∧ now ≤ e ∧ candidate = c)
  ∧ (User.verifyOTP u candidate now).2 = u
  ∧ ∀ draw T,
      let g := User.generateOTP u draw T in
      (User.verifyOTP g.2 g.1 (T + 5 * 60 * 1000)).1 = true
      ∧ (User.verifyOTP g.2 g.1 (T + 11 * 60 * 1000)).1 = false.
Proof.
  split; [|split].
  - rewrite verifyOTP_true. split.
    + intros (e & Ho & Hne & Hle). by exists candidate, e.
    + intros (c & e & Ho & Hne & Hle & ->). by exists e.
  - apply verifyOTP_pure.
  - intros draw T g. subst g. simpl. split.
    + apply verifyOTP_true. exists (T + 10 * 60 * 1000). simpl.
      split; [done|]. split; [|lia].
      apply truthy_Some, otpCode_truthy.
    + apply not_true_is_false. rewrite verifyOTP_true. simpl.
      intros (e & [= <-] & _ & Hle). lia.
Qed.

End Otp.

(** ** The challenge engine *)

Section Engine.

Implicit Types (db : Routes.DB) (c : Challenge.t) (u : User.t).
Implicit Types (p : Challenge.Participant) (id uid : string).

Lemma find_Some uid (ps : list Challenge.Participant) i p :
  Challenge.find uid ps = Some (i, p) →
  ps !! i = Some p ∧ Challenge.userId p = uid.
Proof. unfold Challenge.find. rewrite list_find_Some. tauto. Qed.

(** After a push of an entry of [uid], [find] meets an entry of [uid]. *)
Lemma find_pushed uid (ps : list Challenge.Participant) p :
  Challenge.userId p = uid → is_Some (Challenge.find uid (ps ++ [p])).
Proof.
  intros Hp. unfold Challenge.find.
  apply (list_find_elem_of _ _ p); [|done].
  apply elem_of_app. right. by apply list_elem_of_singleton.
Qed.

(** An in-place update of the entry found keeps it the entry found. *)
Lemma find_updated uid (ps : list Challenge.Participant) i p p' :
  Challenge.find uid ps = Some (i, p) →
  Challenge.userId p' = uid →
  Challenge.find uid (<[i := p']> ps) = Some (i, p').
Proof.
  unfold Challenge.find. rewrite !list_find_Some.
  intros (Hi & _ & Hbefore) Hp'. split; [|split; [done|]].
  - apply list_lookup_insert_eq. by eapply lookup_lt_Some.
  - intros j q Hj Hlt. rewrite list_lookup_insert_ne in Hj by lia. eauto.
Qed.

Lemma updateParticipantStatus_completed c uid subs now i p :
  Challenge.find uid (Challenge.participants c) = Some (i, p) →
  Challenge.updateParticipantStatus c uid Challenge.completed (Some subs) now
  = Challenge.mk (Challenge.title c) (Challenge.points c)
      (Challenge.eligibility c)
      (<[i := Challenge.mkParticipant (Challenge.userId p)
                (Challenge.joinedAt p) (Some now) Challenge.completed
                (match subs with [] => Challenge.submissions p | _ => subs end)
                (Challenge.points c)]>
         (Challenge.participants c))
      (Challenge.isActive c)
      (Challenge.mkStatistics
         (Challenge.totalParticipants (Challenge.statistics c))
         (Challenge.completedParticipants (Challenge.statistics c) + 1)
         (Challenge.averageCompletionTime (Challenge.statistics c))
         (Some (Challenge.completionRate
                  (Challenge.mkStatistics
                     (Challenge.totalParticipants (Challenge.statistics c))
                     (Challenge.completedParticipants (Challenge.statistics c) + 1)
                     (Challenge.averageCompletionTime (Challenge.statistics c))
                     (Challenge.successRate (Challenge.statistics c)))))).
Proof.
  intros Hfind. unfold Challenge.updateParticipantStatus.
  rewrite Hfind. simpl. unfold Challenge.set_participants.
  by destruct subs.
Qed.

(** The successful path of the submit route: the challenge is saved with
    the completed entry, then the account with the award. *)
Lemma submit_success db id uid subs now later c u i p :
  Routes.challenges db !! id = Some c →
  Routes.users db !! uid = Some u →
  Challenge.find uid (Challenge.participants c) = Some (i, p) →
  Challenge.status p ≠ Challenge.completed →
  Routes.submit db id uid subs now later
  = (Routes.Submitted (Challenge.points c),
     Routes.mkDB
       (<[id := Challenge.updateParticipantStatus c uid Challenge.completed
                  (Some subs) now]> (Routes.challenges db))
       (<[uid := User.addPoints u (Challenge.points c)
                   (Some ("Completed challenge: " +:+ Challenge.title c))
                   later]>
          (Routes.users db))).
Proof.
  intros Hc Hu Hfind Hst. unfold Routes.submit.
  rewrite Hc, Hfind. rewrite bool_decide_eq_false_2 by done.
  rewrite (updateParticipantStatus_completed _ _ _ _ _ _ Hfind).
  simpl. by rewrite Hu.
Qed.

(** C1, as stated, fails on the submissions: the entry keeps the photo
    it had when the list handed in is empty. *)
Lemma submit_empty_list_keeps_stored_submissions :
  let r := Routes.submit storeWithDraft "c1" "u1" [] 10 11 in
  r.1 = Routes.Submitted 100
  ∧ Challenge.participants <$> (Routes.challenges r.2 !! "c1")
    = Some [Challenge.mkParticipant "u1" 1 (Some 10) Challenge.completed
              [photo1] 100].
Proof. by vm_compute. Qed.

(** C1, amended. For a challenge and an account with a participant entry
    whose status is not completed, submit succeeds and: the entry gets the
    submissions handed in when that list is not empty (an empty list
    leaves the stored ones), status completed, completedAt = now and
    pointsEarned = challenge.points; completedParticipants grows by 1;
    successRate becomes completedParticipants / totalParticipants * 100
    (0 when totalParticipants is 0); then the account is awarded exactly
    challenge.points through [addPoints] with the description
    "Completed challenge: <title>", so that its points, experience and
    wallet balance each grow by challenge.points. *)
Theorem submit_completes_and_awards db id uid subs now later c u i p :
  Routes.challenges db !! id = Some c →
  Routes.users db !! uid = Some u →
  Challenge.find uid (Challenge.participants c) = Some (i, p) →
  Challenge.status p ≠ Challenge.completed →
  ∃ c' p' u',
    Routes.submit db id uid subs now later
    = (Routes.Submitted (Challenge.points c),
       Routes.mkDB (<[id := c']> (Routes.challenges db))
                   (<[uid := u']> (Routes.users db)))
    ∧ Challenge.participants c' = <[i := p']> (Challenge.participants c)
    ∧ Challenge.find uid (Challenge.participants c') = Some (i, p')
    ∧ Challenge.joinedAt p' = Challenge.joinedAt p
    ∧ (subs ≠ [] → Challenge.submissions p' = subs)
    ∧ (subs = [] → Challenge.submissions p' = Challenge.submissions p)
    ∧ Challenge.status p' = Challenge.completed
    ∧ Challenge.completedAt p' = Some now
    ∧ Challenge.pointsEarned p' = Challenge.points c
    ∧ Challenge.completedParticipants (Challenge.statistics c')
      = Challenge.completedParticipants (Challenge.statistics c) + 1
    ∧ Challenge.totalParticipants (Challenge.statistics c')
      = Challenge.totalParticipants (Challenge.statistics c)
    ∧ Challenge.successRate (Challenge.statistics c')
      = Some (if Challenge.totalParticipants (Challenge.statistics c') =? 0
              then inject_Z 0
              else Qmult
                     (Qdiv (inject_Z (Challenge.completedParticipants
                                        (Challenge.statistics c')))
                           (inject_Z (Challenge.totalParticipants
                                        (Challenge.statistics c'))))
                     (inject_Z 100))
    ∧ (Challenge.title c', Challenge.points c', Challenge.eligibility c',
       Challenge.isActive c')
      = (Challenge.title c, Challenge.points c, Challenge.eligibility c,
         Challenge.isActive c)
    ∧ u' = User.addPoints u (Challenge.points c)
             (Some ("Completed challenge: " +:+ Challenge.title c)) later
    ∧ User.points (User.gamification u')
      = User.points (User.gamification u) + Challenge.points c
    ∧ User.experience (User.gamification u')
      = User.experience (User.gamification u) + Challenge.points c
    ∧ User.balance (User.wallet u')
      = User.balance (User.wallet u) + Challenge.points c
    ∧ User.transactions (User.wallet u')
      = User.transactions (User.wallet u)
        ++ [User.mkTransaction User.earned (Challenge.points c)
              ("Completed challenge: " +:+ Challenge.title c) later].
Proof.
  intros Hc Hu Hfind Hst.
  eexists _, _, _. split; [by eapply submit_success|].
  rewrite (updateParticipantStatus_completed _ _ _ _ _ _ Hfind). simpl.
  split; [reflexivity|]. split.
  { apply (find_updated _ _ _ p); [done|]. simpl. by destruct (find_Some _ _ _ _ Hfind). }
  split; [done|]. split; [by destruct subs|]. split; [by intros ->|].
  done.
Qed.

Lemma submit_completes_and_awards_witness :
  ∃ c' p' u',
    Routes.submit (Routes.join store "c1" "u1" 1).2 "c1" "u1" [photo1] 2 3
    = (Routes.Submitted 100,
       Routes.mkDB (<[ "c1" := c']> (Routes.challenges (Routes.join store "c1" "u1" 1).2))
                   (<[ "u1" := u']> (Routes.users (Routes.join store "c1" "u1" 1).2)))
    ∧ Challenge.status p' = Challenge.completed
    ∧ Challenge.pointsEarned p' = 100
    ∧ Challenge.completedParticipants (Challenge.statistics c') = 1
    ∧ User.balance (User.wallet u') = 100.
Proof.
  destruct (submit_completes_and_awards
              (Routes.join store "c1" "u1" 1).2 "c1" "u1" [photo1] 2 3
              (Challenge.addParticipant openChallenge "u1" 1)
              (User.create "u1") 0%nat
              (Challenge.mkParticipant "u1" 1 None Challenge.pending [] 0)
              ltac:(by vm_compute) ltac:(by vm_compute) ltac:(by vm_compute)
              ltac:(discriminate))
    as (c' & p' & u' & Hr & _ & _ & _ & _ & _ & Hst & _ & Hpts & Hdone
        & _ & _ & _ & _ & _ & _ & Hbal & _).
  exists c', p', u'. split; [exact Hr|]. split; [exact Hst|].
  split; [exact Hpts|]. split; [exact Hdone|].
  exact Hbal.
Defined.

(** The scenario of the specification: the account joins the challenge of
    100 points and submits; its entry is completed with 100 points earned,
    completedParticipants goes from 0 to 1 and the wallet balance from 0 to
    100. *)
Example join_then_submit_scenario :
  let joined := (Routes.join store "c1" "u1" 1).2 in
  let r := Routes.submit joined "c1" "u1" [photo1] 2 3 in
  Challenge.participants <$> (Routes.challenges joined !! "c1")
  = Some [Challenge.mkParticipant "u1" 1 None Challenge.pending [] 0]
  ∧ r.1 = Routes.Submitted 100
  ∧ Challenge.participants <$> (Routes.challenges r.2 !! "c1")
    = Some [Challenge.mkParticipant "u1" 1 (Some 2) Challenge.completed
              [photo1] 100]
  ∧ Challenge.completedParticipants ∘ Challenge.statistics
      <$> (Routes.challenges r.2 !! "c1") = Some 1
  ∧ User.balance ∘ User.wallet <$> (Routes.users r.2 !! "u1") = Some 100.
Proof. by vm_compute. Qed.

(** C9. When submit succeeds with an empty list of submissions, the
    submissions stored in the entry stay as they were, while the other
    effects of the completion take place: status, completedAt,
    pointsEarned, completedParticipants and the award to the account,
    whose points, experience and wallet balance each grow by
    challenge.points, with one earned transaction of that amount added to
    its log. A list that is not empty replaces the stored one, with the
    same award. *)
Theorem submit_empty_submissions_frame db id uid now later c u i p :
  Routes.challenges db !! id = Some c →
  Routes.users db !! uid = Some u →
  Challenge.find uid (Challenge.participants c) = Some (i, p) →
  Challenge.status p ≠ Challenge.completed →
  (∃ c' p' u',
     Routes.submit db id uid [] now later
     = (Routes.Submitted (Challenge.points c),
        Routes.mkDB (<[id := c']> (Routes.challenges db))
          (<[uid := u']> (Routes.users db)))
     ∧ Challenge.find uid (Challenge.participants c') = Some (i, p')
     ∧ Challenge.submissions p' = Challenge.submissions p
     ∧ Challenge.status p' = Challenge.completed
     ∧ Challenge.completedAt p' = Some now
     ∧ Challenge.pointsEarned p' = Challenge.points c
     ∧ Challenge.completedParticipants (Challenge.statistics c')
       = Challenge.completedParticipants (Challenge.statistics c) + 1
     ∧ u' = User.addPoints u (Challenge.points c)
              (Some ("Completed challenge: " +:+ Challenge.title c)) later
     ∧ User.points (User.gamification u')
       = User.points (User.gamification u) + Challenge.points c
     ∧ User.experience (User.gamification u')
       = User.experience (User.gamification u) + Challenge.points c
     ∧ User.balance (User.wallet u')
       = User.balance (User.wallet u) + Challenge.points c
     ∧ User.transactions (User.wallet u')
       = User.transactions (User.wallet u)
         ++ [User.mkTransaction User.earned (Challenge.points c)
               ("Completed challenge: " +:+ Challenge.title c) later])
  ∧ ∀ s subs, ∃ c' p' u',
      (Routes.submit db id uid (s :: subs) now later).2
      = Routes.mkDB (<[id := c']> (Routes.challenges db))
          (<[uid := u']> (Routes.users db))
      ∧ Challenge.find uid (Challenge.participants c') = Some (i, p')
      ∧ Challenge.submissions p' = s :: subs
      ∧ u' = User.addPoints u (Challenge.points c)
               (Some ("Completed challenge: " +:+ Challenge.title c)) later
      ∧ User.points (User.gamification u')
        = User.points (User.gamification u) + Challenge.points c
      ∧ User.experience (User.gamification u')
        = User.experience (User.gamification u) + Challenge.points c
      ∧ User.balance (User.wallet u')
        = User.balance (User.wallet u) + Challenge.points c
      ∧ User.transactions (User.wallet u')
        = User.transactions (User.wallet u)
          ++ [User.mkTransaction User.earned (Challenge.points c)
                ("Completed challenge: " +:+ Challenge.title c) later].
Proof.
  intros Hc Hu Hfind Hst.
  pose proof (find_Some _ _ _ _ Hfind) as [_ Hid].
  split; [|intros s subs]; eexists _, _, _;
    (split; [by erewrite submit_success|]);
    rewrite (updateParticipantStatus_completed _ _ _ _ _ _ Hfind); simpl;
    (split; [by apply (find_updated _ _ _ p)|done]).
Qed.

Lemma submit_empty_submissions_frame_witness :
  ∃ c' p' u',
    Challenge.find "u1" (Challenge.participants c') = Some (0%nat, p')
    ∧ Routes.challenges (Routes.submit storeWithDraft "c1" "u1" [] 10 11).2 !! "c1"
      = Some c'
    ∧ Routes.users (Routes.submit storeWithDraft "c1" "u1" [] 10 11).2 !! "u1"
      = Some u'
    ∧ Challenge.submissions p' = [photo1]
    ∧ Challenge.status p' = Challenge.completed
    ∧ User.balance (User.wallet u') = 100
    ∧ User.transactions (User.wallet u')
      = [User.mkTransaction User.earned 100 "Completed challenge: Mulching" 11].
Proof.
  destruct (submit_empty_submissions_frame storeWithDraft "c1" "u1" 10 11
              (Challenge.mk "Mulching" 100 (Challenge.eligibility openChallenge)
                 [Challenge.mkParticipant "u1" 1 None Challenge.in_progress [photo1] 0]
                 true (Challenge.mkStatistics 1 0 None None))
              (User.create "u1") 0%nat
              (Challenge.mkParticipant "u1" 1 None Challenge.in_progress [photo1] 0)
              ltac:(by vm_compute) ltac:(by vm_compute) ltac:(by vm_compute)
              ltac:(discriminate))
    as [(c' & p' & u' & Hr & Hfind & Hsubs & Hst & _ & _ & _ & _ & _ & _
         & Hbal & Hlog) _].
  exists c', p', u'. split; [exact Hfind|].
  split; [rewrite Hr; apply lookup_insert_eq|].
  split; [rewrite Hr; apply lookup_insert_eq|].
  split; [exact Hsubs|]. split; [exact Hst|].
  split; [exact Hbal|exact Hlog].
Defined.

(** C7. For a challenge and an account whose participant entry has status
    completed, submit fails with AlreadyCompleted and the store is left as
    it was: the entry with its pointsEarned, the statistics of the
    challenge, and the points, experience, wallet balance and transaction
    log of the account. *)
Theorem submit_after_completed db id uid subs now later c i p :
  Routes.challenges db !! id = Some c →
  Challenge.find uid (Challenge.participants c) = Some (i, p) →
  Challenge.status p = Challenge.completed →
  Routes.submit db id uid subs now later = (Routes.AlreadyCompleted, db).
Proof.
  intros Hc Hfind Hst. unfold Routes.submit.
  by rewrite Hc, Hfind, bool_decide_eq_true_2.
Qed.

Lemma submit_after_completed_witness :
  Routes.submit storeCompleted "c1" "u1" [photo1] 10 11
  = (Routes.AlreadyCompleted, storeCompleted).
Proof.
  eapply (submit_after_completed storeCompleted "c1" "u1" [photo1] 10 11 _ 0%nat
            (Challenge.mkParticipant "u1" 1 (Some 2) Challenge.completed
               [photo1] 100)).
  - vm_compute. reflexivity.
  - vm_compute. reflexivity.
  - reflexivity.
Defined.

(** The three guards of [isEligible], each against its reading. *)
Lemma includes_guard `{EqDecision A} (l : list A) (v : option A) :
  (0 <? length l)%nat && negb (Challenge.includes l v) = false
  ↔ (l ≠ [] → ∃ s, v = Some s ∧ s ∈ l).
Proof.
  destruct l as [|x l]; simpl; [by split|].
  rewrite negb_false_iff. unfold Challenge.includes.
  destruct v as [s|].
  - rewrite bool_decide_eq_true. split; [by eauto|].
    intros H0. by destruct H0 as (s' & [= ->] & ?).
  - split; [done|]. intros H0. by destruct H0 as (s' & [=] & ?).
Qed.

Lemma experience_guard (e ue : option Experience) :
  Challenge.isSet e && negb (bool_decide (ue = e)) = false
  ↔ (∀ x, e = Some x → ue = Some x).
Proof.
  destruct e as [x|]; simpl; [|by split].
  rewrite negb_false_iff, bool_decide_eq_true. split.
  - by intros -> y [= ->].
  - intros H0. by apply H0.
Qed.

Lemma isEligible_guards c u :
  Challenge.isEligible c u = true
  ↔ (0 <? length (Challenge.roles (Challenge.eligibility c)))%nat
    && negb (Challenge.includes (Challenge.roles (Challenge.eligibility c))
               (Some (User.role u))) = false
    ∧ Challenge.isSet (Challenge.experience (Challenge.eligibility c))
      && negb (bool_decide
                 (User.farmingExperience (User.farmingProfile u)
                  = Challenge.experience (Challenge.eligibility c))) = false
    ∧ (0 <? length (Challenge.states
                      (Challenge.location (Challenge.eligibility c))))%nat
      && negb (Challenge.includes
                 (Challenge.states
                    (Challenge.location (Challenge.eligibility c)))
                 (User.state (User.location u))) = false.
Proof.
  unfold Challenge.isEligible. cbn zeta.
  repeat (match goal with |- context [if ?b then _ else _] => destruct b end);
    intuition discriminate.
Qed.

Lemma isEligible_spec c u : Challenge.isEligible c u = true ↔ eligibleSpec c u.
Proof.
  rewrite isEligible_guards, !includes_guard, experience_guard.
  unfold eligibleSpec. cbn zeta. split.
  - intros (Hr & He & Hs). split; [|done].
    intros Hne. by destruct (Hr Hne) as (r & [= <-] & ?).
  - intros (Hr & He & Hs). split; [|done]. intros Hne. eauto.
Qed.

(** The failing paths of the join route leave the store as it was. *)
Lemma join_failure_frame db id uid now :
  Routes.success (Routes.join db id uid now).1 = false →
  (Routes.join db id uid now).2 = db.
Proof.
  unfold Routes.join. repeat (case_match; simpl; try done).
Qed.

Lemma join_success db id uid now c u :
  Routes.challenges db !! id = Some c →
  Challenge.isActive c = true →
  Challenge.find uid (Challenge.participants c) = None →
  Routes.users db !! uid = Some u →
  Challenge.isEligible c u = true →
  Routes.join db id uid now
  = (Routes.Joined,
     Routes.save_challenge db id
       (Challenge.mk (Challenge.title c) (Challenge.points c)
          (Challenge.eligibility c)
          (Challenge.participants c
             ++ [Challenge.mkParticipant uid now None Challenge.pending [] 0])
          true
          (Challenge.mkStatistics
             (Challenge.totalParticipants (Challenge.statistics c) + 1)
             (Challenge.completedParticipants (Challenge.statistics c))
             (Challenge.averageCompletionTime (Challenge.statistics c))
             (Challenge.successRate (Challenge.statistics c))))).
Proof.
  intros Hc Hact Hfind Hu Hel. unfold Routes.join.
  rewrite Hc, Hact, Hfind, Hu. simpl. rewrite Hel.
  unfold Challenge.addParticipant. rewrite Hfind.
  unfold Challenge.set_participants. by rewrite Hact.
Qed.

(** A join answers with success only on its last path. *)
Lemma join_success_inv db id uid now :
  Routes.success (Routes.join db id uid now).1 = true →
  ∃ c, Routes.challenges db !! id = Some c
       ∧ Challenge.isActive c = true
       ∧ Challenge.find uid (Challenge.participants c) = None
       ∧ Routes.isEligible c (Routes.users db !! uid) = Some true
       ∧ Routes.join db id uid now
         = (Routes.Joined,
            Routes.save_challenge db id (Challenge.addParticipant c uid now)).
Proof.
  unfold Routes.join.
  destruct (Routes.challenges db !! id) as [c|]; [|done].
  destruct (Challenge.isActive c) eqn:Hact; [|done]. simpl.
  destruct (Challenge.find uid (Challenge.participants c)) eqn:Hfind; [done|].
  destruct (Routes.isEligible c (Routes.users db !! uid)) as [[]|] eqn:Hel;
    [|done..].
  intros _. by exists c.
Qed.

(** C6, as stated, fails when the challenge is inactive: the route tests
    [isActive] before it looks for the entry, and an account that already
    has an entry is answered "Challenge is not active". *)
Lemma join_inactive_checked_before_already_joined :
  Challenge.find "u1"
    <$> (Challenge.participants <$> Routes.challenges storeInactive !! "c1")
  = Some (Some (0%nat,
                Challenge.mkParticipant "u1" 1 None Challenge.pending [] 0))
  ∧ Routes.join storeInactive "c1" "u1" 5
    = (Routes.ChallengeInactive, storeInactive)
  ∧ Routes.ChallengeInactive ≠ Routes.AlreadyJoined.
Proof. by vm_compute. Qed.

(** C6, amended. When a participant entry of the account exists, join
    fails with AlreadyJoined if the challenge is active and with
    ChallengeInactive if it is not, and changes nothing. A successful join
    appends one entry with status pending and increments totalParticipants
    by exactly 1; a further join of the same account then fails with
    AlreadyJoined, so that totalParticipants grows by exactly 1 per
    distinct account. A join of an eligible account without an entry in
    an active challenge succeeds. *)
Theorem join_rejects_second_join db id uid now c :
  Routes.challenges db !! id = Some c →
  (is_Some (Challenge.find uid (Challenge.participants c)) →
     Routes.join db id uid now
     = (if Challenge.isActive c then Routes.AlreadyJoined
        else Routes.ChallengeInactive, db))
  ∧ (Routes.success (Routes.join db id uid now).1 = true →
     Challenge.find uid (Challenge.participants c) = None
     ∧ ∃ c',
         Routes.join db id uid now
         = (Routes.Joined,
            Routes.mkDB (<[id := c']> (Routes.challenges db)) (Routes.users db))
         ∧ Challenge.participants c'
           = Challenge.participants c
             ++ [Challenge.mkParticipant uid now None Challenge.pending [] 0]
         ∧ Challenge.totalParticipants (Challenge.statistics c')
           = Challenge.totalParticipants (Challenge.statistics c) + 1
         ∧ Challenge.completedParticipants (Challenge.statistics c')
           = Challenge.completedParticipants (Challenge.statistics c)
         ∧ ∀ now',
             Routes.join (Routes.join db id uid now).2 id uid now'
             = (Routes.AlreadyJoined, (Routes.join db id uid now).2))
  ∧ (∀ u, Routes.users db !! uid = Some u →
          Challenge.isActive c = true →
          Challenge.find uid (Challenge.participants c) = None →
          Challenge.isEligible c u = true →
          Routes.success (Routes.join db id uid now).1 = true).
Proof.
  intros Hc. split; [|split].
  - intros [[j q] Hfind]. unfold Routes.join. rewrite Hc, Hfind.
    by destruct (Challenge.isActive c).
  - intros Hok.
    destruct (join_success_inv _ _ _ _ Hok) as (c0 & Hc0 & Hact & Hfind & _ & Hjoin).
    assert (c0 = c) as -> by congruence.
    split; [done|]. rewrite Hjoin. unfold Challenge.addParticipant.
    rewrite Hfind. eexists. split; [reflexivity|]. simpl.
    split; [done|]. split; [done|]. split; [done|].
    intros now'. unfold Routes.join at 1. simpl.
    rewrite lookup_insert_eq. simpl. rewrite Hact. simpl.
    by destruct (find_pushed uid (Challenge.participants c)
                   (Challenge.mkParticipant uid now None Challenge.pending [] 0)
                   eq_refl) as [[j q] ->].
  - intros u Hu Hact Hfind Hel.
    by rewrite (join_success _ _ _ _ _ _ Hc Hact Hfind Hu Hel).
Qed.

Lemma join_rejects_second_join_witness :
  Routes.join storeCompleted "c1" "u1" 7 = (Routes.AlreadyJoined, storeCompleted)
  ∧ Routes.success (Routes.join store "c1" "u1" 1).1 = true.
Proof.
  split.
  - refine (proj1 (join_rejects_second_join storeCompleted "c1" "u1" 7
                     (Challenge.mk "Mulching" 100
                        (Challenge.eligibility openChallenge)
                        [Challenge.mkParticipant "u1" 1 (Some 2)
                           Challenge.completed [photo1] 100]
                        true
                        (Challenge.mkStatistics 1 1 None
                           (Some (Qmult (Qdiv (inject_Z 1) (inject_Z 1))
                                        (inject_Z 100)))))
                     _) _).
    + vm_compute. reflexivity.
    + vm_compute. eexists. reflexivity.
  - refine (proj2 (proj2 (join_rejects_second_join store "c1" "u1" 1
                            openChallenge _)) (User.create "u1") _ _ _ _);
      vm_compute; reflexivity.
Defined.

(** C8. [isEligible] returns true exactly when the three checks pass: a
    non-empty eligibility.roles contains the role of the account, a set
    eligibility.experience equals the farming experience of the account
    (equality, not a minimum), and a non-empty eligibility.location.states
    contains the state of the account. An account whose role is not in a
    non-empty eligibility.roles is never eligible, whatever its other
    fields: join never succeeds for it and leaves the store as it was, and
    once the route reaches the predicate (the challenge is active and the
    account has no entry) the answer is NotEligible. *)
Theorem isEligible_iff_all_checks c u :
  (Challenge.isEligible c u = true ↔ eligibleSpec c u)
  ∧ (Challenge.roles (Challenge.eligibility c) ≠ [] →
     User.role u ∉ Challenge.roles (Challenge.eligibility c) →
     Challenge.isEligible c u = false
     ∧ ∀ db id uid now,
         Routes.challenges db !! id = Some c →
         Routes.users db !! uid = Some u →
         Routes.success (Routes.join db id uid now).1 = false
         ∧ (Routes.join db id uid now).2 = db
         ∧ (Challenge.isActive c = true →
            Challenge.find uid (Challenge.participants c) = None →
            Routes.join db id uid now = (Routes.NotEligible, db))).
Proof.
  split; [apply isEligible_spec|].
  intros Hne Hrole.
  assert (Challenge.isEligible c u = false) as Hel.
  { apply not_true_is_false. rewrite isEligible_spec.
    intros (Hr & _). by apply Hrole, Hr. }
  split; [done|]. intros db id uid now Hc Hu.
  assert (Routes.success (Routes.join db id uid now).1 = false) as Hfail.
  { unfold Routes.join. rewrite Hc, Hu. simpl. rewrite Hel.
    repeat (case_match; simpl; try done). }
  split; [done|]. split; [by apply join_failure_frame|].
  intros Hact Hfind. unfold Routes.join.
  rewrite Hc, Hact, Hfind, Hu. simpl. by rewrite Hel.
Qed.

Lemma isEligible_iff_all_checks_witness :
  Challenge.isEligible dripIrrigation
    (User.mk "u2" dealer false false None
       (User.mkLocation (Some "Punjab") None)
       (User.mkFarmingProfile (Some beginner))
       (User.mkGamification 1 0 0 0) (User.mkWallet 0 []) true)
  = false.
Proof.
  refine (proj1 (proj2 (isEligible_iff_all_checks dripIrrigation _) _ _)).
  - vm_compute. discriminate.
  - apply (bool_decide_unpack _). vm_compute. exact I.
Defined.

(** C10. The challenge schema gives eligibility.experience the default
    'beginner': a challenge created without an experience constraint has
    the constraint 'beginner', and [isEligible] is false for every account
    whose farming experience is not exactly 'beginner'. No created
    challenge has the experience constraint unset, whereas roles and
    states left out default to empty lists that restrict nothing: with
    both left out, eligibility is decided by the experience alone. *)
Theorem default_experience_restricts (d : Challenge.Data) :
  Challenge.experience (Challenge.eligibility (Challenge.create d)) ≠ None
  ∧ (Challenge.data_experience d = None →
     Challenge.experience (Challenge.eligibility (Challenge.create d))
     = Some beginner
     ∧ (∀ u, User.farmingExperience (User.farmingProfile u) ≠ Some beginner →
             Challenge.isEligible (Challenge.create d) u = false)
     ∧ (Challenge.data_roles d = None →
        Challenge.data_states d = None →
        ∀ u, Challenge.isEligible (Challenge.create d) u = true
             ↔ User.farmingExperience (User.farmingProfile u) = Some beginner)).
Proof.
  split; [done|]. intros Hd.
  split; [unfold Challenge.create; simpl; by rewrite Hd|].
  split.
  - intros u Hu. apply not_true_is_false. rewrite isEligible_spec.
    intros (_ & He & _). apply Hu, He. simpl. by rewrite Hd.
  - intros Hr Hs u. rewrite isEligible_spec. unfold eligibleSpec. simpl.
    rewrite Hd, Hr, Hs. simpl. split.
    + intros (_ & He & _). by apply He.
    + intros Hu. split; [done|]. split; [|done]. by intros x [= <-].
Qed.

Lemma default_experience_restricts_witness :
  Challenge.isEligible openChallenge (rajesh 0) = false
  ∧ Challenge.isEligible openChallenge (User.create "u1") = true.
Proof.
  destruct (default_experience_restricts
              (Challenge.mkData "Mulching" 100 None None None None None))
    as [_ Hdefault].
  destruct (Hdefault eq_refl) as (_ & Hrestrict & Hopen).
  split.
  - apply Hrestrict. vm_compute. discriminate.
  - apply (Hopen eq_refl eq_refl). reflexivity.
Defined.

End Engine.

(** ** The ledger seen through the rewards routes *)

Section LedgerViews.

Implicit Types (u : User.t) (calls : list Award) (txs : list User.Transaction).

(** The sum of the amounts of a sequence of calls. *)
Lemma foldl_sum_shift {A} (f : A → Z) (l : list A) (a : Z) :
  foldl (λ sum t, sum + f t) a l = a + foldl (λ sum t, sum + f t) 0 l.
Proof.
  revert a. induction l as [|x l IH]; intros a; simpl; [lia|].
  rewrite (IH (a + f x)), (IH (0 + f x)). lia.
Qed.

Lemma total_snoc kind txs tx :
  Rewards.total kind (txs ++ [tx])
  = Rewards.total kind txs
    + (if decide (User.type tx = kind) then User.amount tx else 0).
Proof.
  unfold Rewards.total. rewrite filter_app, foldl_app.
  rewrite filter_cons, filter_nil.
  destruct (decide (User.type tx = kind)); simpl; lia.
Qed.

Lemma awardAll_ledger u calls :
  let v := awardAll u calls in
  let sum := foldl (λ sum a, sum + award_amount a) 0 calls in
  User.points (User.gamification v) = User.points (User.gamification u) + sum
  ∧ User.experience (User.gamification v)
    = User.experience (User.gamification u) + sum
  ∧ User.balance (User.wallet v) = User.balance (User.wallet u) + sum
  ∧ Rewards.total User.earned (User.transactions (User.wallet v))
    = Rewards.total User.earned (User.transactions (User.wallet u)) + sum
  ∧ Rewards.total User.spent (User.transactions (User.wallet v))
    = Rewards.total User.spent (User.transactions (User.wallet u)).
Proof.
  cbn zeta. induction calls as [|a calls IH] using rev_ind.
  - simpl. repeat split; lia.
  - rewrite awardAll_snoc, foldl_app. unfold award.
    rewrite addPoints_points, addPoints_experience, addPoints_balance,
      addPoints_transactions, !total_snoc.
    destruct IH as (-> & -> & -> & -> & ->). simpl.
    repeat split; lia.
Qed.

(** X1. Whatever the sequence of [addPoints] calls and whatever their
    order, points, experience, wallet balance and the total of the earned
    transactions each grow by the sum of the amounts, and the total of the
    spent transactions stays: so experience mirrors points when it did
    before. *)
Theorem awards_add_up u calls :
  let v := awardAll u calls in
  let sum := foldl (λ sum a, sum + award_amount a) 0 calls in
  User.points (User.gamification v) = User.points (User.gamification u) + sum
  ∧ User.experience (User.gamification v)
    = User.experience (User.gamification u) + sum
  ∧ User.balance (User.wallet v) = User.balance (User.wallet u) + sum
  ∧ (User.experience (User.gamification u) = User.points (User.gamification u) →
     User.experience (User.gamification v) = User.points (User.gamification v))
  ∧ ∀ calls', Permutation calls calls' →
      User.points (User.gamification (awardAll u calls'))
      = User.points (User.gamification v)
      ∧ User.balance (User.wallet (awardAll u calls'))
        = User.balance (User.wallet v).
Proof.
  cbn zeta. destruct (awardAll_ledger u calls) as (Hp & He & Hb & _).
  split; [done|]. split; [done|]. split; [done|]. split; [lia|].
  intros calls' Hperm.
  destruct (awardAll_ledger u calls') as (Hp' & _ & Hb' & _).
  assert (foldl (λ sum a, sum + award_amount a) 0 calls
          = foldl (λ sum a, sum + award_amount a) 0 calls') as Hsum.
  { clear -Hperm. induction Hperm as [|x l l' _ IH|x y l|l l' l'' _ IH1 _ IH2];
      simpl; [done| | |congruence].
    - rewrite (foldl_sum_shift _ l (0 + award_amount x)),
        (foldl_sum_shift _ l' (0 + award_amount x)). lia.
    - rewrite (foldl_sum_shift _ l (0 + award_amount y + award_amount x)),
        (foldl_sum_shift _ l (0 + award_amount x + award_amount y)). lia. }
  rewrite Hp, Hb, Hp', Hb', Hsum. done.
Qed.

Lemma awards_add_up_witness :
  User.experience
    (User.gamification
       (awardAll (rajesh 0) [mkAward 50 None 1; mkAward 100 None 2]))
  = User.points
      (User.gamification
         (awardAll (rajesh 0) [mkAward 50 None 1; mkAward 100 None 2]))
  ∧ User.points
      (User.gamification
         (awardAll (rajesh 0) [mkAward 100 None 2; mkAward 50 None 1]))
    = User.points
        (User.gamification
           (awardAll (rajesh 0) [mkAward 50 None 1; mkAward 100 None 2])).
Proof.
  destruct (awards_add_up (rajesh 0) [mkAward 50 None 1; mkAward 100 None 2])
    as (_ & _ & _ & Hmirror & Horder).
  split; [exact (Hmirror eq_refl)|].
  exact (proj1 (Horder [mkAward 100 None 2; mkAward 50 None 1]
                  (perm_swap _ _ _))).
Defined.

(** X2. The wallet route of an account that was registered and has since
    only been awarded points reports a balance equal to the total earned,
    both the sum of the awarded amounts, and a total spent of 0. *)
Theorem wallet_of_awarded_account db uid id calls :
  Routes.users db !! uid = Some (awardAll (User.create id) calls) →
  Rewards.wallet db uid
  = Some (Rewards.mkWallet
            (foldl (λ sum a, sum + award_amount a) 0 calls)
            (foldl (λ sum a, sum + award_amount a) 0 calls)
            0).
Proof.
  intros Hu. unfold Rewards.wallet. rewrite Hu.
  destruct (awardAll_ledger (User.create id) calls)
    as (_ & _ & -> & -> & ->).
  simpl. unfold Rewards.total. simpl. do 3 f_equal; lia.
Qed.

Lemma wallet_of_awarded_account_witness :
  Rewards.wallet
    (Routes.mkDB ∅
       {[ "u1" := awardAll (User.create "u1")
                    [mkAward 50 None 1; mkAward 100 None 2] ]}) "u1"
  = Some (Rewards.mkWallet 150 150 0).
Proof.
  apply (wallet_of_awarded_account _ "u1" "u1"
           [mkAward 50 None 1; mkAward 100 None 2]).
  vm_compute. reflexivity.
Defined.

(** X3. For an account whose level follows the rule and an amount that is
    not negative, [addPoints] raises the level by
    floor ((experience mod 1000 + amount) / 1000): the level stays when the
    amount is below what is missing to the next multiple of 1000 and rises
    otherwise. *)
Theorem level_up_threshold u pts d now :
  levelConsistent u →
  0 ≤ pts →
  let xp := User.experience (User.gamification u) in
  User.level (User.gamification (User.addPoints u pts d now))
  = User.level (User.gamification u) + (xp `mod` 1000 + pts) / 1000
  ∧ (xp `mod` 1000 + pts < 1000 →
     User.level (User.gamification (User.addPoints u pts d now))
     = User.level (User.gamification u))
  ∧ (1000 ≤ xp `mod` 1000 + pts →
     User.level (User.gamification u)
     < User.level (User.gamification (User.addPoints u pts d now))).
Proof.
  intros Hu Hpts xp. rewrite addPoints_level. unfold levelConsistent in Hu.
  rewrite Hu. unfold levelOf. fold xp.
  assert ((xp + pts) / 1000 = xp / 1000 + (xp `mod` 1000 + pts) / 1000) as ->.
  { rewrite (Z.div_mod xp 1000) at 1 by lia.
    rewrite <- Z.add_assoc, Z.mul_comm, Z.div_add_l by lia. done. }
  pose proof (Z.mod_pos_bound xp 1000 ltac:(lia)) as Hmod.
  assert (0 ≤ (xp `mod` 1000 + pts) / 1000) by (apply Z.div_pos; lia).
  split; [lia|]. split.
  - intros Hlt. rewrite (Z.div_small (xp `mod` 1000 + pts) 1000) by lia. lia.
  - intros Hge.
    assert (1 ≤ (xp `mod` 1000 + pts) / 1000)
      by (apply Z.div_le_lower_bound; lia).
    lia.
Qed.

Lemma level_up_threshold_witness :
  User.level (User.gamification (User.addPoints (User.create "u1") 999 None 1)) = 1
  ∧ 1 < User.level
          (User.gamification (User.addPoints (User.create "u1") 1000 None 1)).
Proof.
  split.
  - exact (proj1 (proj2 (level_up_threshold (User.create "u1") 999 None 1
                           eq_refl ltac:(vm_compute; discriminate)))
             eq_refl).
  - exact (proj2 (proj2 (level_up_threshold (User.create "u1") 1000 None 1
                           eq_refl ltac:(vm_compute; discriminate)))
             ltac:(vm_compute; discriminate)).
Defined.

End LedgerViews.

(** ** The verification routes *)

Section Verification.

Implicit Types (u : User.t) (c : string) (now later : Z).

Lemma pow10_succ (k : nat) : (10 ^ N.of_nat (S k) = 10 * 10 ^ N.of_nat k)%N.
Proof. by rewrite Nat2N.inj_succ, N.pow_succ_r'. Qed.

(** A number of [k + 1] decimal digits is printed with [k + 1] characters. *)
Lemma pretty_N_go_digits (k : nat) (x : N) (s : string) :
  (10 ^ N.of_nat k ≤ x < 10 ^ N.of_nat (S k))%N →
  String.length (pretty_N_go x s) = (String.length s + S k)%nat.
Proof.
  revert x s. induction k as [|k IH]; intros x s [Hlo Hhi].
  - change (10 ^ N.of_nat 0)%N with 1%N in Hlo.
    change (10 ^ N.of_nat 1)%N with 10%N in Hhi.
    rewrite pretty_N_go_step by lia.
    rewrite N.div_small by lia. rewrite pretty_N_go_0. simpl. lia.
  - rewrite pow10_succ in Hlo. rewrite (pow10_succ (S k)) in Hhi.
    assert (0 < 10 ^ N.of_nat k)%N as Hpos
      by (apply N.neq_0_lt_0, N.pow_nonzero; lia).
    rewrite pretty_N_go_step by lia.
    rewrite IH; [simpl; lia|]. split.
    + apply N.div_le_lower_bound; [lia|]. lia.
    + apply N.Div0.div_lt_upper_bound. lia.
Qed.

Lemma otpCode_length (draw : Z) :
  0 ≤ draw < 900000 → String.length (User.otpCode draw) = 6%nat.
Proof.
  intros Hdraw. unfold User.otpCode, pretty, pretty_Z.
  destruct (100000 + draw) as [|p|p] eqn:Hp; [lia| |lia].
  unfold pretty, pretty_positive, pretty, pretty_N.
  rewrite decide_False by done.
  rewrite (pretty_N_go_digits 5); [done|].
  change (10 ^ N.of_nat 5)%N with 100000%N.
  change (10 ^ N.of_nat 6)%N with 1000000%N. lia.
Qed.

Lemma validOtp_nonempty c : Auth.validOtp c = true → c ≠ "".
Proof. unfold Auth.validOtp. intros Hlen ->. done. Qed.

(** The two verification routes accept on the same condition. *)
Lemma verifyEmailOTP_accepts u c now later :
  Routes.success (Auth.verifyEmailOTP u c now later).1 = true
  ↔ Auth.validOtp c = true ∧ (User.verifyOTP u c now).1 = true.
Proof.
  unfold Auth.verifyEmailOTP.
  destruct (Auth.validOtp c); simpl; [|by split; [|intros []]].
  destruct (User.verifyOTP u c now) as [[] v]; simpl; by split; [|intros []].
Qed.

Lemma verifyPhoneOTP_accepts u c now later :
  Routes.success (Auth.verifyPhoneOTP u c now later).1 = true
  ↔ Auth.validOtp c = true ∧ (User.verifyOTP u c now).1 = true.
Proof.
  unfold Auth.verifyPhoneOTP.
  destruct (Auth.validOtp c); simpl; [|by split; [|intros []]].
  destruct (User.verifyOTP u c now) as [[] v]; simpl; by split; [|intros []].
Qed.

Lemma verifyEmailOTP_accepted u c now later :
  Auth.validOtp c = true → (User.verifyOTP u c now).1 = true →
  Auth.verifyEmailOTP u c now later
  = (Auth.EmailVerified,
     User.addPoints
       (User.clearOTP (Auth.set_verified u true (User.isPhoneVerified u)))
       50 (Some "Email verification bonus") later).
Proof.
  intros Hlen Hok. unfold Auth.verifyEmailOTP. rewrite Hlen. simpl.
  pose proof (verifyOTP_pure u c now) as Hpure.
  destruct (User.verifyOTP u c now) as [b v]. simpl in *. by subst.
Qed.

Lemma verifyEmailOTP_rejected u c now later :
  Auth.validOtp c && (User.verifyOTP u c now).1 = false →
  Auth.verifyEmailOTP u c now later
  = (if Auth.validOtp c then Auth.InvalidOTP else Auth.ValidationFailed, u).
Proof.
  intros Hno. unfold Auth.verifyEmailOTP.
  destruct (Auth.validOtp c); simpl in *; [|done].
  pose proof (verifyOTP_pure u c now) as Hpure.
  destruct (User.verifyOTP u c now) as [b v]. simpl in *. by subst.
Qed.

(** X4. For a draw of [0 .. 899999], the code that [generateOTP] returns
    and stores has exactly six characters, so that it passes the length
    check of the verification routes; and two different draws never give
    the same code. *)
Theorem otpCode_six_characters u (draw draw' now : Z) :
  0 ≤ draw < 900000 →
  String.length (User.generateOTP u draw now).1 = 6%nat
  ∧ Auth.validOtp (User.generateOTP u draw now).1 = true
  ∧ User.otp (User.generateOTP u draw now).2
    = Some (User.mkOtp (Some (User.generateOTP u draw now).1)
              (Some (now + 600000)))
  ∧ ((User.generateOTP u draw now).1 = (User.generateOTP u draw' now).1 →
     draw = draw').
Proof.
  intros Hdraw. simpl. unfold Auth.validOtp.
  rewrite otpCode_length by done.
  do 3 (split; [done|]).
  unfold User.otpCode. intros Heq. apply (inj pretty) in Heq. lia.
Qed.

Lemma otpCode_six_characters_witness :
  String.length (User.generateOTP (User.create "u1") 0 0).1 = 6%nat.
Proof.
  exact (proj1 (otpCode_six_characters (User.create "u1") 0 1 0 ltac:(lia))).
Defined.

(** X5. The email verification route accepts a request exactly when the
    candidate has six characters, is the stored code, and the time of the
    check is not after the stored expiry; every other request is answered
    without success and leaves the account as it was. *)
Theorem verifyEmailOTP_accepts_iff u c now later :
  ((Auth.verifyEmailOTP u c now later).1 = Auth.EmailVerified
   ↔ String.length c = 6%nat
     ∧ ∃ e, User.otp u = Some (User.mkOtp (Some c) (Some e)) ∧ now ≤ e)
  ∧ ((Auth.verifyEmailOTP u c now later).1 ≠ Auth.EmailVerified →
     Routes.success (Auth.verifyEmailOTP u c now later).1 = false
     ∧ (Auth.verifyEmailOTP u c now later).2 = u).
Proof.
  assert (Auth.validOtp c = true ↔ String.length c = 6%nat) as Hvalid.
  { unfold Auth.validOtp. apply Nat.eqb_eq. }
  destruct (Auth.validOtp c && (User.verifyOTP u c now).1) eqn:Hboth.
  - apply andb_true_iff in Hboth as [Hlen Hok].
    rewrite (verifyEmailOTP_accepted _ _ _ _ Hlen Hok). simpl.
    split; [|done]. split; [|done]. intros _.
    split; [by apply Hvalid|].
    apply verifyOTP_true in Hok as (e & Ho & _ & Hle). eauto.
  - rewrite (verifyEmailOTP_rejected _ _ _ _ Hboth). simpl.
    split; [|by destruct (Auth.validOtp c)].
    split; [by destruct (Auth.validOtp c)|].
    intros (Hsix & e & Ho & Hle). apply Hvalid in Hsix.
    assert ((User.verifyOTP u c now).1 = true) as Hok.
    { apply verifyOTP_true. exists e. split; [done|].
      split; [by apply validOtp_nonempty|done]. }
    by rewrite Hsix, Hok in Hboth.
Qed.

Lemma verifyEmailOTP_accepts_iff_witness :
  Routes.success
    (Auth.verifyEmailOTP (User.create "u1") "123456" 5 6).1 = false
  ∧ (Auth.verifyEmailOTP (User.create "u1") "123456" 5 6).2 = User.create "u1".
Proof.
  exact (proj2 (verifyEmailOTP_accepts_iff (User.create "u1") "123456" 5 6)
           ltac:(vm_compute; discriminate)).
Defined.

(** X6. An accepted email verification marks the email verified, removes
    the stored code and awards 50 points (points, experience and balance
    grow by 50, with one transaction "Email verification bonus"), whether
    or not the email was verified before. The code cannot be used again:
    whatever is presented afterwards to either verification route, at any
    time, is rejected and changes nothing. *)
Theorem verifyEmailOTP_single_use u c now later :
  (Auth.verifyEmailOTP u c now later).1 = Auth.EmailVerified →
  let v := (Auth.verifyEmailOTP u c now later).2 in
  User.isEmailVerified v = true
  ∧ User.isPhoneVerified v = User.isPhoneVerified u
  ∧ User.otp v = None
  ∧ User.points (User.gamification v) = User.points (User.gamification u) + 50
  ∧ User.experience (User.gamification v)
    = User.experience (User.gamification u) + 50
  ∧ User.balance (User.wallet v) = User.balance (User.wallet u) + 50
  ∧ User.transactions (User.wallet v)
    = User.transactions (User.wallet u)
      ++ [User.mkTransaction User.earned 50 "Email verification bonus" later]
  ∧ ∀ c' now' later',
      Auth.verifyEmailOTP v c' now' later'
      = (if Auth.validOtp c' then Auth.InvalidOTP else Auth.ValidationFailed, v)
      ∧ Auth.verifyPhoneOTP v c' now' later'
        = (if Auth.validOtp c' then Auth.InvalidOTP
           else Auth.ValidationFailed, v).
Proof.
  intros Hok v.
  assert (Routes.success (Auth.verifyEmailOTP u c now later).1 = true) as Hs
    by (by rewrite Hok).
  apply verifyEmailOTP_accepts in Hs as [Hlen Hver].
  subst v. rewrite (verifyEmailOTP_accepted _ _ _ _ Hlen Hver). simpl.
  do 7 (split; [done|]).
  intros c' now' later'.
  unfold Auth.verifyEmailOTP, Auth.verifyPhoneOTP.
  by destruct (Auth.validOtp c').
Qed.

Lemma verifyEmailOTP_single_use_witness :
  let sent := (Auth.sendEmailOTP (User.create "u1") 23456 0 true).2 in
  let v := (Auth.verifyEmailOTP sent "123456" 5 6).2 in
  User.isEmailVerified v = true
  ∧ User.balance (User.wallet v) = 50
  ∧ Auth.verifyEmailOTP v "123456" 7 8 = (Auth.InvalidOTP, v).
Proof.
  destruct (verifyEmailOTP_single_use
              (Auth.sendEmailOTP (User.create "u1") 23456 0 true).2
              "123456" 5 6 ltac:(vm_compute; reflexivity))
    as (Hflag & _ & _ & _ & _ & Hbal & _ & Hreplay).
  split; [exact Hflag|]. split; [exact Hbal|].
  exact (proj1 (Hreplay "123456" 7 8)).
Defined.

(** X7. Round trip: once [send-email-otp] has stored a code for an
    unverified account, the code it generated is accepted by
    [verify-email-otp] at every time up to ten minutes later, also when the
    delivery of the mail failed, and is rejected at every later time. *)
Theorem email_otp_round_trip u draw T delivered now later :
  User.isEmailVerified u = false →
  0 ≤ draw < 900000 →
  let sent := (Auth.sendEmailOTP u draw T delivered).2 in
  (now ≤ T + 600000 →
   (Auth.verifyEmailOTP sent (User.otpCode draw) now later).1
   = Auth.EmailVerified)
  ∧ (T + 600000 < now →
     Auth.verifyEmailOTP sent (User.otpCode draw) now later
     = (Auth.InvalidOTP, sent)).
Proof.
  intros Hflag Hdraw sent.
  assert (sent = User.set_otp u
                   (Some (User.mkOtp (Some (User.otpCode draw))
                            (Some (T + 600000))))) as Hsent.
  { subst sent. unfold Auth.sendEmailOTP. rewrite Hflag. simpl.
    by destruct delivered. }
  assert (Auth.validOtp (User.otpCode draw) = true) as Hlen.
  { unfold Auth.validOtp. by rewrite otpCode_length. }
  split.
  - intros Hnow. rewrite verifyEmailOTP_accepted; [done..|].
    apply verifyOTP_true. exists (T + 600000). rewrite Hsent. simpl.
    split; [done|]. split; [by apply validOtp_nonempty|lia].
  - intros Hnow. rewrite verifyEmailOTP_rejected; [by rewrite Hlen|].
    rewrite Hlen. simpl.
    apply not_true_is_false. rewrite verifyOTP_true, Hsent. simpl.
    intros (e & [= <-] & _ & Hle). lia.
Qed.

Lemma email_otp_round_trip_witness :
  (Auth.verifyEmailOTP
     (Auth.sendEmailOTP (User.create "u1") 23456 0 false).2
     (User.otpCode 23456) 600000 600001).1
  = Auth.EmailVerified.
Proof.
  exact (proj1 (email_otp_round_trip (User.create "u1") 23456 0 false
                  600000 600001 eq_refl
                  ltac:(lia))
           ltac:(vm_compute; discriminate)).
Defined.

(** X8. The two verification routes accept exactly the same requests: a
    code sent for the email verifies the phone as well. Neither looks at
    the verification flags, so an account that is already verified is
    accepted, and awarded, again. *)
Theorem verify_routes_share_the_code u c now later :
  (Routes.success (Auth.verifyPhoneOTP u c now later).1
   = Routes.success (Auth.verifyEmailOTP u c now later).1)
  ∧ (∀ email phone,
       Routes.success
         (Auth.verifyEmailOTP (Auth.set_verified u email phone) c now later).1
       = Routes.success (Auth.verifyEmailOTP u c now later).1)
  ∧ (Routes.success (Auth.verifyPhoneOTP u c now later).1 = true →
     User.isPhoneVerified (Auth.verifyPhoneOTP u c now later).2 = true
     ∧ User.otp (Auth.verifyPhoneOTP u c now later).2 = None
     ∧ User.points (User.gamification (Auth.verifyPhoneOTP u c now later).2)
       = User.points (User.gamification u) + 50).
Proof.
  split; [|split].
  - apply eq_true_iff_eq.
    by rewrite verifyPhoneOTP_accepts, verifyEmailOTP_accepts.
  - intros email phone. apply eq_true_iff_eq.
    rewrite !verifyEmailOTP_accepts.
    assert ((User.verifyOTP (Auth.set_verified u email phone) c now).1
            = (User.verifyOTP u c now).1) as ->; [|done].
    unfold User.verifyOTP. simpl. by repeat case_match.
  - intros Hs. apply verifyPhoneOTP_accepts in Hs as [Hlen Hver].
    unfold Auth.verifyPhoneOTP. rewrite Hlen. simpl.
    pose proof (verifyOTP_pure u c now) as Hpure.
    destruct (User.verifyOTP u c now) as [b w]. simpl in *. by subst.
Qed.

Lemma verify_routes_share_the_code_witness :
  let sent := (Auth.sendEmailOTP (User.create "u1") 23456 0 true).2 in
  User.isPhoneVerified (Auth.verifyPhoneOTP sent "123456" 5 6).2 = true.
Proof.
  exact (proj1 (proj2 (proj2 (verify_routes_share_the_code
                                (Auth.sendEmailOTP (User.create "u1") 23456 0 true).2
                                "123456" 5 6))
                  ltac:(vm_compute; reflexivity))).
Defined.

(** X9. [send-email-otp] refuses an account whose email is verified and
    leaves it as it was. For an unverified account it stores the new code
    with an expiry ten minutes ahead in the place of whatever was stored,
    whether or not the mail goes out, and writes nothing else: identity,
    role, both verification flags, location, farming profile, points,
    wallet and the active flag stay. Afterwards any candidate other than
    the new code is rejected, a code sent earlier included. *)
Theorem sendEmailOTP_replaces_code u draw now delivered :
  (User.isEmailVerified u = true →
   Auth.sendEmailOTP u draw now delivered = (Auth.EmailAlreadyVerified, u))
  ∧ (User.isEmailVerified u = false →
     let sent := (Auth.sendEmailOTP u draw now delivered).2 in
     (Auth.sendEmailOTP u draw now delivered).1
     = (if delivered then Auth.EmailOtpSent else Auth.SendFailed)
     ∧ User.otp sent
       = Some (User.mkOtp (Some (User.otpCode draw)) (Some (now + 600000)))
     ∧ User._id sent = User._id u
     ∧ User.role sent = User.role u
     ∧ User.isEmailVerified sent = false
     ∧ User.isPhoneVerified sent = User.isPhoneVerified u
     ∧ User.location sent = User.location u
     ∧ User.farmingProfile sent = User.farmingProfile u
     ∧ User.gamification sent = User.gamification u
     ∧ User.wallet sent = User.wallet u
     ∧ User.isActive sent = User.isActive u
     ∧ ∀ c now' later,
         c ≠ User.otpCode draw →
         Routes.success (Auth.verifyEmailOTP sent c now' later).1 = false
         ∧ (Auth.verifyEmailOTP sent c now' later).2 = sent).
Proof.
  split; intros Hflag; unfold Auth.sendEmailOTP; rewrite Hflag; [done|].
  simpl. destruct delivered; simpl.
  all: do 11 (split; [done|]); intros c now' later Hc.
  all: rewrite verifyEmailOTP_rejected;
    [by destruct (Auth.validOtp c)|].
  all: apply andb_false_iff; right; apply not_true_is_false.
  all: rewrite verifyOTP_true; simpl; intros (e & [= Hcode _] & _); congruence.
Qed.

Lemma sendEmailOTP_replaces_code_witness :
  let first := (Auth.sendEmailOTP (User.create "u1") 23456 0 true).2 in
  let second := (Auth.sendEmailOTP first 1 10 true).2 in
  User.otp first = Some (User.mkOtp (Some "123456") (Some 600000))
  ∧ User.otp second = Some (User.mkOtp (Some "100001") (Some 600010))
  ∧ User.isPhoneVerified second = false
  ∧ Routes.success (Auth.verifyEmailOTP second "123456" 20 21).1 = false.
Proof.
  destruct (proj2 (sendEmailOTP_replaces_code (User.create "u1") 23456 0 true)
              eq_refl)
    as (_ & Hfirst & _).
  destruct (proj2 (sendEmailOTP_replaces_code
                     (Auth.sendEmailOTP (User.create "u1") 23456 0 true).2
                     1 10 true) eq_refl)
    as (_ & Hsecond & _ & _ & _ & Hphone & _ & _ & _ & _ & _ & Hother).
  split; [exact Hfirst|]. split; [exact Hsecond|]. split; [exact Hphone|].
  exact (proj1 (Hother "123456" 20 21 ltac:(vm_compute; discriminate))).
Defined.

End Verification.

(** ** What the challenge routes keep *)

Section EngineInvariants.

Implicit Types (db : Routes.DB) (c : Challenge.t) (u : User.t).
Implicit Types (p : Challenge.Participant) (id uid : string).
Implicit Types (ps : list Challenge.Participant).

(** The challenge a join leaves under an identifier is the one that was
    there, or the one that was there with the entry pushed. *)
Lemma join_challenge_cases db id uid now id' c' :
  Routes.challenges (Routes.join db id uid now).2 !! id' = Some c' →
  Routes.challenges db !! id' = Some c'
  ∨ ∃ c, id' = id
         ∧ Routes.challenges db !! id = Some c
         ∧ Challenge.find uid (Challenge.participants c) = None
         ∧ c' = Challenge.mk (Challenge.title c) (Challenge.points c)
                  (Challenge.eligibility c)
                  (Challenge.participants c
                     ++ [Challenge.mkParticipant uid now None
                           Challenge.pending [] 0])
                  (Challenge.isActive c)
                  (Challenge.mkStatistics
                     (Challenge.totalParticipants (Challenge.statistics c) + 1)
                     (Challenge.completedParticipants (Challenge.statistics c))
                     (Challenge.averageCompletionTime (Challenge.statistics c))
                     (Challenge.successRate (Challenge.statistics c))).
Proof.
  destruct (Routes.success (Routes.join db id uid now).1) eqn:Hok.
  - destruct (join_success_inv _ _ _ _ Hok) as (c & Hc & _ & Hfind & _ & ->).
    simpl. destruct (decide (id' = id)) as [->|Hne].
    + rewrite lookup_insert_eq. intros [= <-]. right. exists c.
      unfold Challenge.addParticipant. by rewrite Hfind.
    + rewrite lookup_insert_ne by done. by left.
  - rewrite (join_failure_frame _ _ _ _ Hok). by left.
Qed.

(** A submit that gets past its guards saves the challenge, whether or
    not the account is found afterwards. *)
Lemma submit_saves_challenge db id uid subs now later c i p :
  Routes.challenges db !! id = Some c →
  Challenge.find uid (Challenge.participants c) = Some (i, p) →
  Challenge.status p ≠ Challenge.completed →
  Routes.challenges (Routes.submit db id uid subs now later).2
  = <[id := Challenge.updateParticipantStatus c uid Challenge.completed
              (Some subs) now]> (Routes.challenges db).
Proof.
  intros Hc Hfind Hst. unfold Routes.submit. rewrite Hc, Hfind.
  rewrite bool_decide_eq_false_2 by done. simpl.
  by destruct (Routes.users db !! uid).
Qed.

(** The same for a submit: the challenge that was there, or that one with
    the entry of the account, which was not completed, completed. *)
Lemma submit_challenge_cases db id uid subs now later id' c' :
  Routes.challenges (Routes.submit db id uid subs now later).2 !! id' = Some c' →
  Routes.challenges db !! id' = Some c'
  ∨ ∃ c i p, id' = id
             ∧ Routes.challenges db !! id = Some c
             ∧ Challenge.find uid (Challenge.participants c) = Some (i, p)
             ∧ Challenge.status p ≠ Challenge.completed
             ∧ c' = Challenge.updateParticipantStatus c uid
                      Challenge.completed (Some subs) now.
Proof.
  destruct (Routes.challenges db !! id) as [c|] eqn:Hc;
    [|unfold Routes.submit; rewrite Hc; by left].
  destruct (Challenge.find uid (Challenge.participants c)) as [[i p]|] eqn:Hfind;
    [|unfold Routes.submit; rewrite Hc, Hfind; by left].
  destruct (decide (Challenge.status p = Challenge.completed)) as [Hst|Hst].
  { unfold Routes.submit. rewrite Hc, Hfind, bool_decide_eq_true_2 by done.
    by left. }
  rewrite (submit_saves_challenge _ _ _ _ _ _ _ _ _ Hc Hfind Hst).
  destruct (decide (id' = id)) as [->|Hne].
  - rewrite lookup_insert_eq. intros [= <-]. right. by exists c, i, p.
  - rewrite lookup_insert_ne by done. by left.
Qed.

Lemma find_None_not_in uid ps :
  Challenge.find uid ps = None → uid ∉ Challenge.userId <$> ps.
Proof.
  unfold Challenge.find. rewrite list_find_None, Forall_forall.
  intros Hall Hin. apply list_elem_of_fmap in Hin as (p & -> & Hp).
  by apply (Hall p).
Qed.

Lemma completedEntries_insert ps i p p' :
  ps !! i = Some p →
  Challenge.status p ≠ Challenge.completed →
  Challenge.status p' = Challenge.completed →
  length (completedEntries (<[i := p']> ps))
  = S (length (completedEntries ps)).
Proof.
  intros Hi Hp Hp'. unfold completedEntries.
  rewrite <- (take_drop_middle ps i p Hi) at 2.
  rewrite insert_take_drop by (by eapply lookup_lt_Some).
  rewrite !filter_app, !filter_cons.
  rewrite decide_True by done. rewrite decide_False by done.
  rewrite !length_app. simpl. lia.
Qed.

(** X10. Both routes keep one entry per account: when no challenge of the
    store has two entries of one account, none has after a join or a
    submit, whatever their outcome; and a created challenge has none. *)
Theorem routes_keep_entries_unique db id uid subs now later :
  everyChallenge entriesUnique db →
  everyChallenge entriesUnique (Routes.join db id uid now).2
  ∧ everyChallenge entriesUnique (Routes.submit db id uid subs now later).2
  ∧ ∀ d, entriesUnique (Challenge.create d).
Proof.
  intros Hdb. split; [|split].
  - intros id' c' Hc'.
    apply join_challenge_cases in Hc' as [Hc'|(c & -> & Hc & Hfind & ->)];
      [by eapply Hdb|].
    unfold entriesUnique. simpl. rewrite fmap_app. simpl.
    apply NoDup_app. split; [by eapply Hdb|]. split.
    + intros x Hx Hin. apply list_elem_of_singleton in Hin as ->.
      by apply (find_None_not_in _ _ Hfind).
    + apply NoDup_singleton.
  - intros id' c' Hc'.
    apply submit_challenge_cases
      in Hc' as [Hc'|(c & i & p & -> & Hc & Hfind & Hst & ->)];
      [by eapply Hdb|].
    rewrite (updateParticipantStatus_completed _ _ _ _ _ _ Hfind).
    unfold entriesUnique. simpl.
    rewrite list_fmap_insert. simpl.
    destruct (find_Some _ _ _ _ Hfind) as [Hi _].
    rewrite list_insert_id; [by eapply Hdb|].
    by rewrite list_lookup_fmap, Hi.
  - intros d. unfold entriesUnique. simpl. constructor.
Qed.

Lemma routes_keep_entries_unique_witness :
  everyChallenge entriesUnique
    (Routes.submit (Routes.join store "c1" "u1" 1).2 "c1" "u1" [photo1] 2 3).2.
Proof.
  assert (everyChallenge entriesUnique store) as Hstore.
  { intros id c Hc. unfold store in Hc. simpl in Hc.
    apply lookup_singleton_Some in Hc as [_ <-].
    unfold entriesUnique. simpl. constructor. }
  pose proof (proj1 (routes_keep_entries_unique store "c1" "u1" [] 1 1 Hstore))
    as Hjoined.
  exact (proj1 (proj2 (routes_keep_entries_unique
                         (Routes.join store "c1" "u1" 1).2 "c1" "u1"
                         [photo1] 2 3 Hjoined))).
Defined.

(** X11. Both routes keep the counters right: when in every challenge of
    the store totalParticipants is the number of entries and
    completedParticipants the number of completed entries, the same holds
    after a join or a submit, whatever their outcome; and it holds of a
    created challenge. *)
Theorem routes_keep_counters db id uid subs now later :
  everyChallenge countersCount db →
  everyChallenge countersCount (Routes.join db id uid now).2
  ∧ everyChallenge countersCount (Routes.submit db id uid subs now later).2
  ∧ ∀ d, countersCount (Challenge.create d).
Proof.
  intros Hdb. split; [|split].
  - intros id' c' Hc'.
    apply join_challenge_cases in Hc' as [Hc'|(c & -> & Hc & Hfind & ->)];
      [by eapply Hdb|].
    destruct (Hdb _ _ Hc) as [Htotal Hdone].
    unfold countersCount, completedEntries in *. simpl.
    rewrite length_app, filter_app, length_app, filter_cons, filter_nil.
    simpl. lia.
  - intros id' c' Hc'.
    apply submit_challenge_cases
      in Hc' as [Hc'|(c & i & p & -> & Hc & Hfind & Hst & ->)];
      [by eapply Hdb|].
    destruct (Hdb _ _ Hc) as [Htotal Hdone].
    rewrite (updateParticipantStatus_completed _ _ _ _ _ _ Hfind).
    destruct (find_Some _ _ _ _ Hfind) as [Hi _].
    unfold countersCount. simpl.
    rewrite length_insert, (completedEntries_insert _ _ p) by done. lia.
  - intros d. by unfold countersCount.
Qed.

Lemma routes_keep_counters_witness :
  everyChallenge countersCount
    (Routes.submit (Routes.join store "c1" "u1" 1).2 "c1" "u1" [photo1] 2 3).2.
Proof.
  assert (everyChallenge countersCount store) as Hstore.
  { intros id c Hc. unfold store in Hc. simpl in Hc.
    apply lookup_singleton_Some in Hc as [_ <-]. by unfold countersCount. }
  pose proof (proj1 (routes_keep_counters store "c1" "u1" [] 1 1 Hstore))
    as Hjoined.
  exact (proj1 (proj2 (routes_keep_counters
                         (Routes.join store "c1" "u1" 1).2 "c1" "u1"
                         [photo1] 2 3 Hjoined))).
Defined.

(** X12. Both routes keep the rule of the entries: when in every challenge
    of the store each completed entry carries pointsEarned =
    challenge.points and a completedAt, and each other entry carries 0
    points and no completedAt, the same holds after a join or a submit. So
    for a reward of at least 1, an entry has points exactly when it is
    completed. *)
Theorem routes_keep_entry_rule db id uid subs now later :
  everyChallenge entriesFollowRule db →
  everyChallenge entriesFollowRule (Routes.join db id uid now).2
  ∧ everyChallenge entriesFollowRule
      (Routes.submit db id uid subs now later).2
  ∧ ∀ id' c p,
      Routes.challenges (Routes.submit db id uid subs now later).2 !! id'
      = Some c →
      p ∈ Challenge.participants c →
      1 ≤ Challenge.points c →
      (Challenge.pointsEarned p ≠ 0
       ↔ Challenge.status p = Challenge.completed).
Proof.
  intros Hdb.
  assert (everyChallenge entriesFollowRule
            (Routes.submit db id uid subs now later).2) as Hsubmit.
  { intros id' c' Hc'.
    apply submit_challenge_cases
      in Hc' as [Hc'|(c & i & p & -> & Hc & Hfind & Hst & ->)];
      [by eapply Hdb|].
    rewrite (updateParticipantStatus_completed _ _ _ _ _ _ Hfind).
    unfold entriesFollowRule. simpl. apply Forall_insert.
    - exact (Hdb _ _ Hc).
    - unfold entryRule. simpl. split; [done | by eexists]. }
  split; [|split; [done|]].
  - intros id' c' Hc'.
    apply join_challenge_cases in Hc' as [Hc'|(c & -> & Hc & Hfind & ->)];
      [by eapply Hdb|].
    unfold entriesFollowRule. simpl. apply Forall_app. split.
    + exact (Hdb _ _ Hc).
    + apply Forall_singleton. by unfold entryRule.
  - intros id' c p Hc Hp Hpts.
    pose proof (Hsubmit _ _ Hc) as Hrule.
    unfold entriesFollowRule in Hrule. rewrite Forall_forall in Hrule.
    specialize (Hrule p Hp). unfold entryRule in Hrule.
    destruct (decide (Challenge.status p = Challenge.completed));
      destruct Hrule as [Hrule _]; split; intros; try done; lia.
Qed.

Lemma routes_keep_entry_rule_witness :
  everyChallenge entriesFollowRule
    (Routes.submit (Routes.join store "c1" "u1" 1).2 "c1" "u1" [photo1] 2 3).2.
Proof.
  assert (everyChallenge entriesFollowRule store) as Hstore.
  { intros id c Hc. unfold store in Hc. simpl in Hc.
    apply lookup_singleton_Some in Hc as [_ <-].
    unfold entriesFollowRule. simpl. constructor. }
  pose proof (proj1 (routes_keep_entry_rule store "c1" "u1" [] 1 1 Hstore))
    as Hjoined.
  exact (proj1 (proj2 (routes_keep_entry_rule
                         (Routes.join store "c1" "u1" 1).2 "c1" "u1"
                         [photo1] 2 3 Hjoined))).
Defined.

Lemma percentage_bounds (a t : Z) :
  0 ≤ a ≤ t → 0 < t →
  Qle (inject_Z 0) (Qmult (Qdiv (inject_Z a) (inject_Z t)) (inject_Z 100))
  ∧ Qle (Qmult (Qdiv (inject_Z a) (inject_Z t)) (inject_Z 100)) (inject_Z 100).
Proof.
  intros Ha Ht. destruct t as [|t|t]; [lia| |lia].
  unfold Qle, Qmult, Qdiv, Qinv, inject_Z. simpl.
  rewrite !Z.mul_1_r, ?Pos.mul_1_r. split; lia.
Qed.

(** X13. In a challenge whose counters count its entries, a successful
    submit leaves completedParticipants at most totalParticipants and a
    successRate that is a percentage: completedParticipants /
    totalParticipants * 100, between 0 and 100. *)
Theorem submit_successRate_is_percentage db id uid subs now later c i p :
  Routes.challenges db !! id = Some c →
  Challenge.find uid (Challenge.participants c) = Some (i, p) →
  Challenge.status p ≠ Challenge.completed →
  countersCount c →
  ∃ c' rate,
    Routes.challenges (Routes.submit db id uid subs now later).2 !! id = Some c'
    ∧ Challenge.successRate (Challenge.statistics c') = Some rate
    ∧ rate = Qmult
               (Qdiv (inject_Z (Challenge.completedParticipants
                                  (Challenge.statistics c')))
                     (inject_Z (Challenge.totalParticipants
                                  (Challenge.statistics c'))))
               (inject_Z 100)
    ∧ 0 < Challenge.completedParticipants (Challenge.statistics c')
      ≤ Challenge.totalParticipants (Challenge.statistics c')
    ∧ Qle (inject_Z 0) rate ∧ Qle rate (inject_Z 100).
Proof.
  intros Hc Hfind Hst [Htotal Hdone].
  destruct (find_Some _ _ _ _ Hfind) as [Hi _].
  pose proof (lookup_lt_Some _ _ _ Hi) as Hlt.
  pose proof (completedEntries_insert (Challenge.participants c) i p
                (Challenge.mkParticipant (Challenge.userId p)
                   (Challenge.joinedAt p) (Some now) Challenge.completed
                   (match subs with
                    | [] => Challenge.submissions p
                    | _ => subs
                    end) (Challenge.points c)) Hi Hst eq_refl) as Hcount.
  pose proof (length_filter
                (λ q, Challenge.status q = Challenge.completed)
                (<[i := Challenge.mkParticipant (Challenge.userId p)
                          (Challenge.joinedAt p) (Some now) Challenge.completed
                          (match subs with
                           | [] => Challenge.submissions p
                           | _ => subs
                           end) (Challenge.points c)]>
                   (Challenge.participants c))) as Hle.
  fold (completedEntries
          (<[i := Challenge.mkParticipant (Challenge.userId p)
                    (Challenge.joinedAt p) (Some now) Challenge.completed
                    (match subs with
                     | [] => Challenge.submissions p
                     | _ => subs
                     end) (Challenge.points c)]>
             (Challenge.participants c))) in Hle.
  rewrite Hcount, length_insert in Hle.
  assert (0 < Challenge.completedParticipants (Challenge.statistics c) + 1
          ≤ Challenge.totalParticipants (Challenge.statistics c)) as Hbounds
    by lia.
  eexists _, _. split.
  { rewrite (submit_saves_challenge _ _ _ _ _ _ _ _ _ Hc Hfind Hst).
    apply lookup_insert_eq. }
  rewrite (updateParticipantStatus_completed _ _ _ _ _ _ Hfind). simpl.
  unfold Challenge.completionRate. simpl.
  destruct (Z.eqb_spec (Challenge.totalParticipants (Challenge.statistics c)) 0)
    as [Hzero|_]; [lia|].
  split; [done|]. split; [done|]. split; [done|].
  apply percentage_bounds; lia.
Qed.

Lemma submit_successRate_is_percentage_witness :
  ∃ c' rate,
    Routes.challenges
      (Routes.submit (Routes.join store "c1" "u1" 1).2 "c1" "u1" [photo1] 2 3).2
      !! "c1" = Some c'
    ∧ Challenge.successRate (Challenge.statistics c') = Some rate
    ∧ Qle rate (inject_Z 100).
Proof.
  destruct (submit_successRate_is_percentage
              (Routes.join store "c1" "u1" 1).2 "c1" "u1" [photo1] 2 3
              (Challenge.addParticipant openChallenge "u1" 1) 0%nat
              (Challenge.mkParticipant "u1" 1 None Challenge.pending [] 0)
              ltac:(by vm_compute) ltac:(by vm_compute) ltac:(discriminate)
              ltac:(by vm_compute))
    as (c' & rate & Hc' & Hrate & _ & _ & _ & Hle).
  by exists c', rate.
Defined.

(** X14. The completion is saved before the account is read. When the
    account is not in the store, submit answers 500 with the entry already
    completed and counted; once the account is there, a new submit is
    answered AlreadyCompleted and awards nothing, so the points of that
    completion are never awarded. *)
Theorem submit_without_account_loses_award db id uid subs now later c i p :
  Routes.challenges db !! id = Some c →
  Routes.users db !! uid = None →
  Challenge.find uid (Challenge.participants c) = Some (i, p) →
  Challenge.status p ≠ Challenge.completed →
  let after := (Routes.submit db id uid subs now later).2 in
  (Routes.submit db id uid subs now later).1 = Routes.ServerError
  ∧ Routes.users after = Routes.users db
  ∧ (∃ c' p',
       Routes.challenges after !! id = Some c'
       ∧ Challenge.find uid (Challenge.participants c') = Some (i, p')
       ∧ Challenge.status p' = Challenge.completed
       ∧ Challenge.completedParticipants (Challenge.statistics c')
         = Challenge.completedParticipants (Challenge.statistics c) + 1)
  ∧ ∀ u subs' now' later',
      Routes.submit (Routes.save_user after uid u) id uid subs' now' later'
      = (Routes.AlreadyCompleted, Routes.save_user after uid u).
Proof.
  intros Hc Hu Hfind Hst after.
  assert (Routes.submit db id uid subs now later
          = (Routes.ServerError,
             Routes.save_challenge db id
               (Challenge.updateParticipantStatus c uid Challenge.completed
                  (Some subs) now))) as Hsubmit.
  { unfold Routes.submit. rewrite Hc, Hfind.
    rewrite bool_decide_eq_false_2 by done. simpl. by rewrite Hu. }
  subst after. rewrite Hsubmit. simpl.
  split; [done|]. split; [done|].
  pose proof (find_updated uid (Challenge.participants c) i p
                (Challenge.mkParticipant (Challenge.userId p)
                   (Challenge.joinedAt p) (Some now) Challenge.completed
                   (match subs with
                    | [] => Challenge.submissions p
                    | _ => subs
                    end) (Challenge.points c)) Hfind
                (proj2 (find_Some _ _ _ _ Hfind))) as Hfind'.
  rewrite (updateParticipantStatus_completed _ _ _ _ _ _ Hfind).
  split.
  - eexists _, _. rewrite lookup_insert_eq. split; [reflexivity|].
    simpl. by rewrite Hfind'.
  - intros u subs' now' later'. unfold Routes.submit. simpl.
    rewrite lookup_insert_eq. simpl. by rewrite Hfind'.
Qed.

Lemma submit_without_account_loses_award_witness :
  let gone :=
    Routes.mkDB (Routes.challenges (Routes.join store "c1" "u1" 1).2) ∅ in
  (Routes.submit gone "c1" "u1" [photo1] 2 3).1 = Routes.ServerError
  ∧ (Routes.submit
       (Routes.save_user (Routes.submit gone "c1" "u1" [photo1] 2 3).2
          "u1" (User.create "u1")) "c1" "u1" [photo1] 4 5).1
    = Routes.AlreadyCompleted.
Proof.
  destruct (submit_without_account_loses_award
              (Routes.mkDB (Routes.challenges (Routes.join store "c1" "u1" 1).2) ∅)
              "c1" "u1" [photo1] 2 3
              (Challenge.addParticipant openChallenge "u1" 1) 0%nat
              (Challenge.mkParticipant "u1" 1 None Challenge.pending [] 0)
              ltac:(by vm_compute) ltac:(by vm_compute) ltac:(by vm_compute)
              ltac:(discriminate))
    as (H500 & _ & _ & Hretry).
  split; [exact H500|].
  exact (f_equal fst (Hretry (User.create "u1") [photo1] 4 5)).
Defined.

Lemma submit_users_cases db id uid subs now later :
  Routes.users (Routes.submit db id uid subs now later).2 = Routes.users db
  ∨ ∃ u', Routes.users (Routes.submit db id uid subs now later).2
          = <[uid := u']> (Routes.users db).
Proof.
  unfold Routes.submit.
  repeat (case_match; simpl; eauto).
Qed.

(** X15. A join writes no account and no challenge but its own, where it
    only appends; a submit writes no challenge but its own and no account
    but its own, and in its challenge it leaves the entries of the other
    accounts as they were. *)
Theorem routes_touch_only_their_documents db id uid subs now later :
  Routes.users (Routes.join db id uid now).2 = Routes.users db
  ∧ (∀ id', id' ≠ id →
       Routes.challenges (Routes.join db id uid now).2 !! id'
       = Routes.challenges db !! id'
       ∧ Routes.challenges (Routes.submit db id uid subs now later).2 !! id'
         = Routes.challenges db !! id')
  ∧ (∀ uid', uid' ≠ uid →
       Routes.users (Routes.submit db id uid subs now later).2 !! uid'
       = Routes.users db !! uid')
  ∧ (∀ c c',
       Routes.challenges db !! id = Some c →
       (Routes.challenges (Routes.join db id uid now).2 !! id = Some c' →
        Challenge.participants c `prefix_of` Challenge.participants c')
       ∧ (Routes.challenges (Routes.submit db id uid subs now later).2 !! id
          = Some c' →
          length (Challenge.participants c') = length (Challenge.participants c)
          ∧ ∀ j q, Challenge.participants c !! j = Some q →
                   Challenge.userId q ≠ uid →
                   Challenge.participants c' !! j = Some q)).
Proof.
  split; [|split; [|split]].
  - unfold Routes.join. by repeat (case_match; simpl).
  - intros id' Hne. split.
    + destruct (Routes.challenges (Routes.join db id uid now).2 !! id')
        as [c'|] eqn:Hc'.
      * by apply join_challenge_cases in Hc' as [Hc'|(c & -> & _)].
      * destruct (Routes.success (Routes.join db id uid now).1) eqn:Hok.
        -- destruct (join_success_inv _ _ _ _ Hok) as (c & _ & _ & _ & _ & Hj).
           rewrite Hj in Hc'. simpl in Hc'.
           by rewrite lookup_insert_ne in Hc'.
        -- by rewrite (join_failure_frame _ _ _ _ Hok) in Hc'.
    + unfold Routes.submit.
      repeat (case_match; simpl; try done);
        by rewrite lookup_insert_ne.
  - intros uid' Hne.
    destruct (submit_users_cases db id uid subs now later) as [->|[u' ->]];
      [done|]. by rewrite lookup_insert_ne.
  - intros c c' Hc. split.
    + intros Hc'.
      apply join_challenge_cases in Hc' as [Hc'|(c0 & _ & Hc0 & _ & ->)].
      * by assert (c' = c) as -> by congruence.
      * assert (c0 = c) as -> by congruence. simpl. by eexists.
    + intros Hc'.
      apply submit_challenge_cases
        in Hc' as [Hc'|(c0 & i & p & _ & Hc0 & Hfind & _ & ->)].
      * by assert (c' = c) as -> by congruence.
      * assert (c0 = c) as -> by congruence.
        rewrite (updateParticipantStatus_completed _ _ _ _ _ _ Hfind). simpl.
        split; [by rewrite length_insert|].
        intros j q Hj Hq. destruct (find_Some _ _ _ _ Hfind) as [Hi Hid].
        rewrite list_lookup_insert_ne; [done|].
        intros ->. congruence.
Qed.


Lemma filter_none {A} (P : A → Prop) `{∀ x, Decision (P x)} (l : list A) :
  Forall (λ x, ¬ P x) l → filter P l = [].
Proof.
  induction 1 as [|x l Hx _ IH]; [done|].
  rewrite filter_cons, decide_False by done. exact IH.
Qed.

(** X17. [addParticipant] adds an account once: a second call for the same
    account, at whatever time, returns the challenge as the first call left
    it, with one entry of the account and totalParticipants one above the
    start. *)
Theorem addParticipant_idempotent c uid now now' :
  Challenge.addParticipant (Challenge.addParticipant c uid now) uid now'
  = Challenge.addParticipant c uid now
  ∧ (Challenge.find uid (Challenge.participants c) = None →
     Challenge.totalParticipants
       (Challenge.statistics
          (Challenge.addParticipant (Challenge.addParticipant c uid now)
             uid now'))
     = Challenge.totalParticipants (Challenge.statistics c) + 1
     ∧ length (filter (λ p, Challenge.userId p = uid)
                 (Challenge.participants
                    (Challenge.addParticipant
                       (Challenge.addParticipant c uid now) uid now')))
       = 1%nat).
Proof.
  assert (Challenge.addParticipant (Challenge.addParticipant c uid now) uid now'
          = Challenge.addParticipant c uid now) as Hsame.
  { unfold Challenge.addParticipant at 2 3.
    destruct (Challenge.find uid (Challenge.participants c)) eqn:Hfind.
    - unfold Challenge.addParticipant. by rewrite Hfind.
    - unfold Challenge.addParticipant. simpl.
      by destruct (find_pushed uid (Challenge.participants c)
                     (Challenge.mkParticipant uid now None Challenge.pending [] 0)
                     eq_refl) as [[j q] ->]. }
  split; [done|]. intros Hfind. rewrite Hsame.
  unfold Challenge.addParticipant. rewrite Hfind. simpl. split; [done|].
  rewrite filter_app, filter_cons, filter_nil. simpl.
  rewrite decide_True by done. rewrite length_app. simpl.
  assert (filter (λ p, Challenge.userId p = uid) (Challenge.participants c) = [])
    as ->; [|done].
  apply filter_none.
  unfold Challenge.find in Hfind. by apply list_find_None in Hfind.
Qed.

Lemma addParticipant_idempotent_witness :
  Challenge.totalParticipants
    (Challenge.statistics
       (Challenge.addParticipant (Challenge.addParticipant openChallenge "u1" 1)
          "u1" 2)) = 1.
Proof.
  exact (proj1 (proj2 (addParticipant_idempotent openChallenge "u1" 1 2)
                  eq_refl)).
Defined.

(** X18. [updateParticipantStatus] has no guard of its own: called a second
    time with 'completed' for the same entry, it counts the completion
    again. completedParticipants is then two above the start while at most
    one more entry is completed, so counters that were right are wrong: the
    guard of the submit route is what keeps them right. *)
Theorem updateParticipantStatus_counts_calls c uid subs subs' now now' i p :
  Challenge.find uid (Challenge.participants c) = Some (i, p) →
  let once :=
    Challenge.updateParticipantStatus c uid Challenge.completed (Some subs) now in
  let twice :=
    Challenge.updateParticipantStatus once uid Challenge.completed
      (Some subs') now' in
  Challenge.completedParticipants (Challenge.statistics twice)
  = Challenge.completedParticipants (Challenge.statistics c) + 2
  ∧ (length (completedEntries (Challenge.participants twice))
     ≤ S (length (completedEntries (Challenge.participants c))))%nat
  ∧ (countersCount c → ¬ countersCount twice).
Proof.
  intros Hfind once twice.
  assert (Challenge.userId
            (Challenge.mkParticipant (Challenge.userId p)
               (Challenge.joinedAt p) (Some now) Challenge.completed
               (match subs with
                | [] => Challenge.submissions p
                | _ => subs
                end) (Challenge.points c)) = uid) as Hid
    by (simpl; by destruct (find_Some _ _ _ _ Hfind)).
  pose proof (find_updated _ _ _ _ _ Hfind Hid) as Hfind'.
  subst twice once.
  rewrite (updateParticipantStatus_completed c _ _ _ _ _ Hfind).
  erewrite updateParticipantStatus_completed by (simpl; exact Hfind').
  simpl. rewrite list_insert_insert_eq.
  destruct (find_Some _ _ _ _ Hfind) as [Hi _].
  assert (length
            (completedEntries
               (<[i := Challenge.mkParticipant (Challenge.userId p)
                         (Challenge.joinedAt p) (Some now') Challenge.completed
                         (match subs' with
                          | [] => match subs with
                                  | [] => Challenge.submissions p
                                  | _ => subs
                                  end
                          | _ => subs'
                          end) (Challenge.points c)]>
                  (Challenge.participants c)))
          ≤ S (length (completedEntries (Challenge.participants c))))%nat
    as Hcount.
  { unfold completedEntries.
    rewrite <- (take_drop_middle (Challenge.participants c) i p Hi) at 2.
    rewrite insert_take_drop by (by eapply lookup_lt_Some).
    rewrite !filter_app, !filter_cons. simpl.
    destruct (decide (Challenge.status p = Challenge.completed));
      rewrite !length_app; simpl; lia. }
  split; [lia|]. split; [exact Hcount|].
  intros [_ Hdone] [_ Hdone']. simpl in Hdone'. lia.
Qed.

Lemma updateParticipantStatus_counts_calls_witness :
  let c := Challenge.addParticipant openChallenge "u1" 1 in
  Challenge.completedParticipants
    (Challenge.statistics
       (Challenge.updateParticipantStatus
          (Challenge.updateParticipantStatus c "u1" Challenge.completed
             (Some []) 2)
          "u1" Challenge.completed (Some []) 3)) = 2.
Proof.
  exact (proj1 (updateParticipantStatus_counts_calls
                  (Challenge.addParticipant openChallenge "u1" 1) "u1" [] [] 2 3
                  0%nat
                  (Challenge.mkParticipant "u1" 1 None Challenge.pending [] 0)
                  eq_refl)).
Defined.

End EngineInvariants.

(** ** The rank of an account *)

Section Ranking.

Implicit Types (db : Routes.DB) (u v : User.t) (uid : string).

(** The accounts that the count of the route counts for a threshold. *)
Local Abbreviation above t :=
  (λ kv : string * User.t,
     (t < User.points (User.gamification kv.2))%Z
     ∧ User.isActive kv.2 = true).

(** The count, with one account of the store set apart. *)
Lemma higherRanked_split db t uid u :
  Routes.users db !! uid = Some u →
  Leaderboard.higherRanked db t
  = (size (filter (above t) (delete uid (Routes.users db)))
     + (if decide ((t < User.points (User.gamification u))%Z
                   ∧ User.isActive u = true) then 1 else 0))%nat.
Proof.
  intros Hu. unfold Leaderboard.higherRanked.
  rewrite <- (insert_delete_id _ _ _ Hu) at 1.
  rewrite map_filter_insert. simpl.
  destruct (decide (t < User.points (User.gamification u)
                    ∧ User.isActive u = true)).
  - rewrite map_size_insert_None; [lia|].
    apply map_lookup_filter_None. left. apply lookup_delete_eq.
  - rewrite (delete_id (delete uid (Routes.users db)))
      by apply lookup_delete_eq. lia.
Qed.

Lemma higherRanked_saved db t uid v :
  Leaderboard.higherRanked (Routes.save_user db uid v) t
  = (size (filter (above t) (delete uid (Routes.users db)))
     + (if decide ((t < User.points (User.gamification v))%Z
                   ∧ User.isActive v = true) then 1 else 0))%nat.
Proof.
  rewrite (higherRanked_split _ t uid v) by apply lookup_insert_eq.
  simpl. by rewrite delete_insert_eq.
Qed.

(** A higher threshold counts fewer accounts. *)
Lemma above_antitone (m : gmap string User.t) (t t' : Z) :
  t ≤ t' → (size (filter (above t') m) ≤ size (filter (above t) m))%nat.
Proof.
  intros Ht. apply map_subseteq_size, map_filter_subseteq_ext.
  intros i x _ [Hx ?]. simpl in *. split; [lia|done].
Qed.

(** X19. The rank that [user-rank] reports: it is at least 1 and at most
    the number of accounts of the store; of two accounts the one with no
    fewer points has no worse rank, so equal points give equal ranks; and
    the rank is 1 exactly when no active account has more points. An
    account that is not in the store gets the answer 500. *)
Theorem userRank_orders_by_points db a b ua ub :
  Routes.users db !! a = Some ua →
  Routes.users db !! b = Some ub →
  ∃ ra rb,
    Leaderboard.userRank db a = Some ra
    ∧ Leaderboard.userRank db b = Some rb
    ∧ 1 ≤ Leaderboard.rank ra ≤ Z.of_nat (size (Routes.users db))
    ∧ (User.points (User.gamification ua) ≤ User.points (User.gamification ub) →
       Leaderboard.rank rb ≤ Leaderboard.rank ra)
    ∧ (User.points (User.gamification ua) = User.points (User.gamification ub) →
       Leaderboard.rank ra = Leaderboard.rank rb)
    ∧ (Leaderboard.rank ra = 1
       ↔ ∀ k v, Routes.users db !! k = Some v → User.isActive v = true →
                User.points (User.gamification v)
                ≤ User.points (User.gamification ua))
    ∧ ∀ missing, Routes.users db !! missing = None →
                 Leaderboard.userRank db missing = None.
Proof.
  intros Ha Hb. unfold Leaderboard.userRank. rewrite Ha, Hb.
  eexists _, _. split; [done|]. split; [done|]. simpl.
  split; [|split; [|split; [|split]]].
  - split; [lia|].
    rewrite (higherRanked_split _ _ a ua Ha).
    rewrite decide_False by lia.
    pose proof (map_size_filter
                  (above (User.points (User.gamification ua)))
                  (delete a (Routes.users db))) as Hle.
    rewrite map_size_delete, Ha in Hle.
    assert (size (Routes.users db) ≠ 0%nat).
    { intros Hzero. apply map_size_empty_iff in Hzero.
      by rewrite Hzero, lookup_empty in Ha. }
    simpl in Hle. lia.
  - intros Hle. unfold Leaderboard.higherRanked.
    pose proof (above_antitone (Routes.users db) _ _ Hle). lia.
  - intros Heq. by rewrite Heq.
  - assert (Leaderboard.higherRanked db (User.points (User.gamification ua))
            = 0%nat
            ↔ ∀ k v, Routes.users db !! k = Some v → User.isActive v = true →
                     User.points (User.gamification v)
                     ≤ User.points (User.gamification ua)) as Hzero.
    { unfold Leaderboard.higherRanked.
      rewrite map_size_empty_iff, map_empty_filter. unfold map_Forall.
      split.
      - intros Hnone k v Hk Hact.
        destruct (decide (User.points (User.gamification v)
                          ≤ User.points (User.gamification ua))) as [|Hgt];
          [done|].
        exfalso. apply (Hnone k v Hk). simpl. split; [lia|done].
      - intros Hall k v Hk [Hlt Hact]. simpl in *.
        specialize (Hall k v Hk Hact). lia. }
    rewrite <- Hzero. lia.
  - intros missing Hmissing. by rewrite Hmissing.
Qed.

Lemma userRank_orders_by_points_witness :
  ∃ ra rb,
    Leaderboard.userRank (Routes.mkDB ∅ {[ "rajesh" := rajesh 0;
                                            "u1" := User.create "u1" ]}) "u1"
    = Some ra
    ∧ Leaderboard.userRank (Routes.mkDB ∅ {[ "rajesh" := rajesh 0;
                                              "u1" := User.create "u1" ]})
        "rajesh" = Some rb
    ∧ Leaderboard.rank rb ≤ Leaderboard.rank ra.
Proof.
  destruct (userRank_orders_by_points
              (Routes.mkDB ∅ {[ "rajesh" := rajesh 0;
                                 "u1" := User.create "u1" ]})
              "u1" "rajesh" (User.create "u1") (rajesh 0)
              ltac:(by vm_compute) ltac:(by vm_compute))
    as (ra & rb & Ha & Hb & _ & Hle & _).
  exists ra, rb. split; [exact Ha|]. split; [exact Hb|].
  apply Hle. vm_compute. discriminate.
Defined.

(** X20. An award of a non-negative amount never worsens the rank of the
    awarded account, and moves every other account down by at most one
    place and never up. *)
Theorem award_never_worsens_rank db uid u pts d now :
  Routes.users db !! uid = Some u →
  0 ≤ pts →
  let after := Routes.save_user db uid (User.addPoints u pts d now) in
  (∃ r r',
     Leaderboard.userRank db uid = Some r
     ∧ Leaderboard.userRank after uid = Some r'
     ∧ Leaderboard.rank r' ≤ Leaderboard.rank r)
  ∧ ∀ b ub, b ≠ uid → Routes.users db !! b = Some ub →
      ∃ r r',
        Leaderboard.userRank db b = Some r
        ∧ Leaderboard.userRank after b = Some r'
        ∧ Leaderboard.rank r ≤ Leaderboard.rank r' ≤ Leaderboard.rank r + 1.
Proof.
  intros Hu Hpts after. subst after. split.
  - unfold Leaderboard.userRank. simpl. rewrite Hu, lookup_insert_eq.
    eexists _, _. split; [done|]. split; [done|]. simpl.
    rewrite higherRanked_saved, (higherRanked_split _ _ uid u Hu).
    rewrite addPoints_points.
    rewrite !decide_False by (rewrite ?addPoints_points; lia).
    pose proof (above_antitone (delete uid (Routes.users db))
                  (User.points (User.gamification u))
                  (User.points (User.gamification u) + pts) ltac:(lia)).
    lia.
  - intros b ub Hne Hb.
    unfold Leaderboard.userRank. simpl. rewrite Hb.
    rewrite lookup_insert_ne by done. rewrite Hb.
    eexists _, _. split; [done|]. split; [done|]. simpl.
    rewrite higherRanked_saved, (higherRanked_split _ _ uid u Hu).
    assert (User.isActive (User.addPoints u pts d now) = User.isActive u)
      as Hact by done.
    rewrite Hact, addPoints_points.
    repeat case_decide; try lia.
    match goal with
    | H : _ ∧ _, H' : ¬ _ |- _ =>
        destruct H as [? ?]; exfalso; apply H'; split; [lia|done]
    end.
Qed.

Lemma award_never_worsens_rank_witness :
  ∃ r r',
    Leaderboard.userRank
      (Routes.mkDB ∅ {[ "rajesh" := rajesh 0; "u1" := User.create "u1" ]}) "u1"
    = Some r
    ∧ Leaderboard.userRank
        (Routes.save_user
           (Routes.mkDB ∅ {[ "rajesh" := rajesh 0; "u1" := User.create "u1" ]})
           "u1" (User.addPoints (User.create "u1") 3000 None 1)) "u1"
      = Some r'
    ∧ Leaderboard.rank r' ≤ Leaderboard.rank r.
Proof.
  exact (proj1 (award_never_worsens_rank
                  (Routes.mkDB ∅ {[ "rajesh" := rajesh 0;
                                     "u1" := User.create "u1" ]})
                  "u1" (User.create "u1") 3000 None 1
                  ltac:(by vm_compute) ltac:(lia))).
Defined.

End Ranking.

(** ** The community posts *)

Section Posts.

Implicit Types (posts : list Community.Post) (p : Community.Post).

Lemma createPost_cases posts uid user title content category now :
  (Community.createPost posts uid user title content category now).2 = posts
  ∨ ∃ a,
      Community.validPost title content category = true
      ∧ user = Some a
      ∧ Community.createPost posts uid user title content category now
        = (Community.Created
             (Community.mkPost (Z.of_nat (length posts) + 1) uid
                (Community.firstName a +:+ " " +:+ Community.lastName a)
                (if String.eqb (Community.profileImage a) ""
                 then "👤" else "📷")
                title content category 0 0 now "🌱"),
           Community.mkPost (Z.of_nat (length posts) + 1) uid
             (Community.firstName a +:+ " " +:+ Community.lastName a)
             (if String.eqb (Community.profileImage a) ""
              then "👤" else "📷")
             title content category 0 0 now "🌱" :: posts).
Proof.
  unfold Community.createPost.
  destruct (Community.validPost title content category); [|by left].
  destruct user as [a|]; [|by left]. right. by exists a.
Qed.

Lemma likePost_cases posts postId :
  Community.likePost posts postId = (Community.Failed 404 "Post not found", posts)
  ∧ Forall (λ p, Some (Community.id p) ≠ postId) posts
  ∨ ∃ i p,
      posts !! i = Some p
      ∧ Some (Community.id p) = postId
      ∧ (∀ j q, posts !! j = Some q → (j < i)%nat →
                Some (Community.id q) ≠ postId)
      ∧ Community.likePost posts postId
        = (Community.Liked (Community.likes p + 1),
           <[i := Community.mkPost (Community.id p) (Community.authorId p)
                    (Community.author p) (Community.avatar p)
                    (Community.title p) (Community.content p)
                    (Community.category p) (Community.likes p + 1)
                    (Community.comments p) (Community.createdAt p)
                    (Community.image p)]> posts).
Proof.
  unfold Community.likePost.
  destruct (list_find (λ p, Some (Community.id p) = postId) posts)
    as [[i p]|] eqn:Hfind.
  - right. apply list_find_Some in Hfind as (Hi & Hp & Hbefore).
    by exists i, p.
  - left. by apply list_find_None in Hfind.
Qed.

(** A like changes neither the ids nor the categories nor the length. *)
Lemma likePost_keeps posts postId :
  Community.id <$> (Community.likePost posts postId).2 = Community.id <$> posts
  ∧ Community.category <$> (Community.likePost posts postId).2
    = Community.category <$> posts
  ∧ length (Community.likePost posts postId).2 = length posts.
Proof.
  destruct (likePost_cases posts postId)
    as [[-> _]|(i & p & Hi & _ & _ & ->)]; [done|]. simpl.
  rewrite !list_fmap_insert, length_insert. simpl.
  rewrite !list_insert_id; [done|by rewrite list_lookup_fmap, Hi..].
Qed.

(** X21. The ids of the posts stay distinct numbers of [1 .. length]: this
    holds of the array the module starts with and is kept by every new
    post and every like, whatever their outcome; so the id given to a new
    post, [length + 1], is the id of no post already there. *)
Theorem post_ids_stay_unique posts uid user title content category now postId :
  postIds posts →
  postIds (Community.createPost posts uid user title content category now).2
  ∧ postIds (Community.likePost posts postId).2
  ∧ (∀ post,
       (Community.createPost posts uid user title content category now).1
       = Community.Created post →
       Community.id post = Z.of_nat (length posts) + 1
       ∧ Community.id post ∉ Community.id <$> posts)
  ∧ ∀ t0, postIds (Community.communityPosts t0).
Proof.
  intros [Hnodup Hrange].
  assert (Z.of_nat (length posts) + 1 ∉ Community.id <$> posts) as Hfresh.
  { intros Hin. apply list_elem_of_fmap in Hin as (q & Hq & Hin).
    specialize (Hrange q Hin). lia. }
  split; [|split; [|split]].
  - destruct (createPost_cases posts uid user title content category now)
      as [->|(a & _ & _ & ->)]; [done|]. simpl. split.
    + rewrite fmap_cons. by apply NoDup_cons.
    + intros p Hp. simpl length.
      apply elem_of_cons in Hp as [->|Hp]; [simpl; lia|].
      specialize (Hrange p Hp). lia.
  - destruct (likePost_keeps posts postId) as (Hids & _ & Hlen).
    split; [by rewrite Hids|].
    intros p Hp. rewrite Hlen.
    assert (Community.id p ∈ Community.id <$> posts) as Hin.
    { rewrite <- Hids. apply list_elem_of_fmap. by exists p. }
    apply list_elem_of_fmap in Hin as (q & -> & Hq). by apply Hrange.
  - intros post Hpost.
    destruct (createPost_cases posts uid user title content category now)
      as [Hsame|(a & _ & _ & Hcreated)].
    + unfold Community.createPost in Hpost.
      by repeat (case_match; simplify_eq/=).
    + rewrite Hcreated in Hpost. simpl in Hpost.
      injection Hpost as <-. by split.
  - intros t0. split.
    + simpl. apply NoDup_cons. split; [|apply NoDup_singleton].
      rewrite list_elem_of_singleton. discriminate.
    + intros p Hp. simpl.
      apply elem_of_cons in Hp as [->|Hp]; [simpl; lia|].
      apply list_elem_of_singleton in Hp as ->. simpl. lia.
Qed.

Lemma post_ids_stay_unique_witness :
  postIds
    (Community.createPost (Community.communityPosts 0) "u1"
       (Some (Community.mkAuthor "Amit" "Singh" ""))
       "Mulching" "Straw keeps the soil moist." "tips" 5).2.
Proof.
  exact (proj1 (post_ids_stay_unique (Community.communityPosts 0) "u1"
                  (Some (Community.mkAuthor "Amit" "Singh" ""))
                  "Mulching" "Straw keeps the soil moist." "tips" 5 None
                  (proj2 (proj2 (proj2
                     (post_ids_stay_unique [] "" None "" "" "" 0 None
                        (conj (NoDup_nil_2 : NoDup (Community.id <$> []))
                           (λ p Hp, False_ind _ (not_elem_of_nil p Hp))))))
                     0))).
Defined.

Lemma likePost_at posts i p :
  NoDup (Community.id <$> posts) →
  posts !! i = Some p →
  Community.likePost posts (Some (Community.id p))
  = (Community.Liked (Community.likes p + 1),
     <[i := Community.mkPost (Community.id p) (Community.authorId p)
              (Community.author p) (Community.avatar p)
              (Community.title p) (Community.content p)
              (Community.category p) (Community.likes p + 1)
              (Community.comments p) (Community.createdAt p)
              (Community.image p)]> posts).
Proof.
  intros Hnodup Hi.
  destruct (likePost_cases posts (Some (Community.id p)))
    as [[_ Hnone]|(j & q & Hj & Hq & _ & ->)].
  - rewrite Forall_forall in Hnone.
    destruct (Hnone p); [by eapply list_elem_of_lookup_2|done].
  - assert (j = i) as ->.
    { apply (NoDup_lookup _ _ _ (Community.id p) Hnodup).
      - rewrite list_lookup_fmap, Hj. simpl. congruence.
      - by rewrite list_lookup_fmap, Hi. }
    by assert (q = p) as -> by congruence.
Qed.

(** [parseInt] on the decimal notation of a number. *)
Lemma pretty_N_go_app (x : N) (s rest : string) :
  pretty_N_go x s +:+ rest = pretty_N_go x (s +:+ rest).
Proof.
  revert s. induction (N.lt_wf_0 x) as [x _ IH]. intros s.
  destruct (decide (x = 0)%N) as [->|Hx]; [by rewrite !pretty_N_go_0|].
  rewrite (pretty_N_go_step x s), (pretty_N_go_step x (s +:+ rest)) by lia.
  rewrite IH; [done|]. apply N.div_lt; lia.
Qed.

Lemma digit_pretty_N_char (d : N) :
  (d < 10)%N → Js.digit 10 (pretty_N_char d) = Some (Z.of_N d).
Proof.
  intros Hd.
  destruct d as [|q]; [done|].
  do 4 (try destruct q as [q|q|]; try done; try lia).
Qed.

Lemma digits_pretty_N_go (x : N) (s : string) :
  (0 < x)%N →
  Js.digits 10 None (pretty_N_go x s) = Js.digits 10 (Some (Z.of_N x)) s.
Proof.
  revert s. induction (N.lt_wf_0 x) as [x _ IH]. intros s Hx.
  rewrite pretty_N_go_step by done.
  assert (x `mod` 10 < 10)%N as Hmod by (apply N.mod_lt; lia).
  destruct (decide (x `div` 10 = 0)%N) as [Hdiv|Hdiv].
  - rewrite Hdiv, pretty_N_go_0. simpl.
    rewrite digit_pretty_N_char by done. simpl. do 2 f_equal.
    pose proof (N.Div0.div_mod x 10) as H. rewrite Hdiv in H. lia.
  - rewrite IH; [|apply N.div_lt; lia|by apply N.neq_0_lt_0]. simpl.
    rewrite digit_pretty_N_char by done. simpl. do 2 f_equal.
    pose proof (N.Div0.div_mod x 10). lia.
Qed.

Lemma pretty_N_go_head (x : N) (s : string) :
  (0 < x)%N →
  ∃ d s', (1 ≤ d ≤ 9)%N ∧ pretty_N_go x s = String (pretty_N_char d) s'.
Proof.
  revert s. induction (N.lt_wf_0 x) as [x _ IH]. intros s Hx.
  rewrite pretty_N_go_step by done.
  destruct (decide (x `div` 10 = 0)%N) as [Hdiv|Hdiv].
  - rewrite Hdiv, pretty_N_go_0. exists (x `mod` 10)%N, s. split; [|done].
    pose proof (N.Div0.div_mod x 10).
    pose proof (N.mod_lt x 10 ltac:(done)). lia.
  - apply IH; [apply N.div_lt; lia|by apply N.neq_0_lt_0].
Qed.

(** A string that begins with one of the digits 1 .. 9 is read in base
    ten from its first character on. *)
Lemma parseInt_leading_digit (d : N) (s : string) :
  (1 ≤ d ≤ 9)%N →
  Js.parseInt (String (pretty_N_char d) s)
  = Js.digits 10 None (String (pretty_N_char d) s).
Proof.
  intros Hd. unfold Js.parseInt.
  assert (Js.trimStart (String (pretty_N_char d) s)
          = String (pretty_N_char d) s) as ->.
  { destruct d as [|q]; [lia|].
    do 4 (try destruct q as [q|q|]; try lia);
      by destruct s as [|b [|c s]]. }
  assert (Js.sign (String (pretty_N_char d) s)
          = (1, String (pretty_N_char d) s)) as ->.
  { destruct d as [|q]; [lia|].
    by do 4 (try destruct q as [q|q|]; try lia). }
  assert (Js.radix (String (pretty_N_char d) s)
          = (10, String (pretty_N_char d) s)) as ->.
  { destruct d as [|q]; [lia|].
    do 4 (try destruct q as [q|q|]; try lia);
      by destruct s as [|b s]. }
  destruct (Js.digits 10 None (String (pretty_N_char d) s)) as [k|]; [|done].
  simpl. f_equal. lia.
Qed.

(** A positive number in decimal notation, followed by anything that does
    not begin with a digit, is read as that number. *)
Lemma parseInt_pretty (k : Z) (rest : string) :
  0 < k → Js.startsWithDigit rest = false →
  Js.parseInt (pretty k +:+ rest) = Some k.
Proof.
  intros Hk Hrest. unfold pretty, pretty_Z.
  destruct k as [|q|q]; [lia| |lia].
  unfold pretty, pretty_positive, pretty, pretty_N.
  rewrite decide_False by done.
  rewrite pretty_N_go_app. change ("" +:+ rest) with rest.
  destruct (pretty_N_go_head (N.pos q) rest ltac:(lia)) as (d & s' & Hd & Hhead).
  rewrite Hhead, parseInt_leading_digit by done.
  rewrite <- Hhead, digits_pretty_N_go by lia.
  destruct rest as [|a rest]; [done|]. simpl in *.
  apply bool_decide_eq_false in Hrest.
  destruct (Js.digit 10 a); [by destruct Hrest|done].
Qed.

(** A string that begins with a letter is read as [NaN]. *)
Lemma parseInt_letter (a : Ascii.ascii) (s : string) :
  65 ≤ Js.code a ≤ 90 ∨ 97 ≤ Js.code a ≤ 122 →
  Js.parseInt (String a s) = None.
Proof.
  intros Ha. unfold Js.parseInt.
  assert (Js.space1 (Js.code a) = false) as H1.
  { unfold Js.space1. lia. }
  assert (∀ b, Js.space2 (Js.code a) b = false) as H2.
  { intros b. unfold Js.space2. lia. }
  assert (∀ b c, Js.space3 (Js.code a) b c = false) as H3.
  { intros b c. unfold Js.space3. lia. }
  assert (Js.trimStart (String a s) = String a s) as ->.
  { destruct s as [|b [|c s]]; simpl; by rewrite ?H1, ?H2, ?H3. }
  assert (Js.sign (String a s) = (1, String a s)) as ->.
  { unfold Js.sign.
    destruct (Z.eqb_spec (Js.code a) 45); [lia|].
    destruct (Z.eqb_spec (Js.code a) 43); [lia|done]. }
  assert (Js.radix (String a s) = (10, String a s)) as ->.
  { unfold Js.radix. destruct s as [|b s]; [done|].
    destruct (Z.eqb_spec (Js.code a) 48); [lia|done]. }
  assert (Js.digit 10 a = None) as Hdigit.
  { unfold Js.digit.
    repeat (case_match; simplify_eq/=; try done); lia. }
  simpl. by rewrite Hdigit.
Qed.

(** X22. A request to like whose path parameter [parseInt] reads as the id
    of a post adds exactly one to the likes of that post and leaves the
    rest of the array as it was; nothing keeps count of who liked, so [n]
    such requests add [n]. [parseInt] reads the decimal id of a post,
    alone or followed by anything that does not begin with a digit, as that
    id, so that [2abc] and [2.9] like the post 2. A parameter that
    [parseInt] reads as no id of a post, and so any parameter that begins
    with a letter, which it reads as [NaN], is answered 404 and changes
    nothing. *)
Theorem likePost_counts_every_like posts i p n :
  NoDup (Community.id <$> posts) →
  posts !! i = Some p →
  (∀ param,
     Js.parseInt param = Some (Community.id p) →
     Community.like posts param
     = (Community.Liked (Community.likes p + 1),
        <[i := Community.mkPost (Community.id p) (Community.authorId p)
                 (Community.author p) (Community.avatar p)
                 (Community.title p) (Community.content p)
                 (Community.category p) (Community.likes p + 1)
                 (Community.comments p) (Community.createdAt p)
                 (Community.image p)]> posts)
     ∧ likeTimes n param posts
       = <[i := Community.mkPost (Community.id p) (Community.authorId p)
                  (Community.author p) (Community.avatar p)
                  (Community.title p) (Community.content p)
                  (Community.category p) (Community.likes p + Z.of_nat n)
                  (Community.comments p) (Community.createdAt p)
                  (Community.image p)]> posts)
  ∧ (∀ rest,
       0 < Community.id p → Js.startsWithDigit rest = false →
       Js.parseInt (pretty (Community.id p) +:+ rest) = Some (Community.id p))
  ∧ (∀ param,
       (∀ q, q ∈ posts → Js.parseInt param ≠ Some (Community.id q)) →
       Community.like posts param
       = (Community.Failed 404 "Post not found", posts))
  ∧ (∀ a s,
       65 ≤ Js.code a ≤ 90 ∨ 97 ≤ Js.code a ≤ 122 →
       Js.parseInt (String a s) = None
       ∧ Community.like posts (String a s)
         = (Community.Failed 404 "Post not found", posts)).
Proof.
  intros Hnodup Hi. split; [|split; [|split]].
  - intros param Hparam. unfold likeTimes, Community.like. rewrite Hparam.
    split; [by apply likePost_at|].
    induction n as [|n IH].
    + simpl. rewrite Z.add_0_r. rewrite list_insert_id; [done|].
      rewrite Hi. by destruct p.
    + rewrite Nat.iter_succ, IH.
      set (q := Community.mkPost (Community.id p) (Community.authorId p)
                  (Community.author p) (Community.avatar p)
                  (Community.title p) (Community.content p)
                  (Community.category p) (Community.likes p + Z.of_nat n)
                  (Community.comments p) (Community.createdAt p)
                  (Community.image p)).
      change (Community.id p) with (Community.id q) at 1.
      rewrite (likePost_at (<[i := q]> posts) i q).
      * simpl. rewrite list_insert_insert_eq. do 2 f_equal. lia.
      * rewrite list_fmap_insert. simpl.
        rewrite list_insert_id; [done|by rewrite list_lookup_fmap, Hi].
      * apply list_lookup_insert_eq. by eapply lookup_lt_Some.
  - intros rest Hid Hrest. by apply parseInt_pretty.
  - intros param Hnone. unfold Community.like.
    destruct (likePost_cases posts (Js.parseInt param))
      as [[-> _]|(j & q & Hj & Hq & _)]; [done|].
    destruct (Hnone q); [by eapply list_elem_of_lookup_2|done].
  - intros a s Ha. unfold Community.like.
    rewrite (parseInt_letter _ _ Ha). split; [done|].
    destruct (likePost_cases posts None)
      as [[-> _]|(j & q & _ & [=] & _)]. done.
Qed.

Lemma likePost_counts_every_like_witness :
  Community.likes
  <$> (likeTimes 3 "2abc" (Community.communityPosts 0) !! 1%nat)
  = Some 15
  ∧ Js.parseInt "2.9" = Some 2
  ∧ Community.like (Community.communityPosts 0) "abc"
    = (Community.Failed 404 "Post not found", Community.communityPosts 0).
Proof.
  destruct (likePost_counts_every_like
              (Community.communityPosts 0) 1
              (Community.mkPost 2 "user2" "Priya Sharma" "👩‍🌾"
                 "Compost Making Tips"
                 "Looking for advice on making organic compost. What materials work best for vegetable farming? Any specific ratios you recommend?"
                 "question" 12 15 (0 - 4 * 60 * 60 * 1000) "🍂")
              3
              ltac:(by apply (bool_decide_unpack _); vm_compute)
              eq_refl) as (Hlike & Hread & _ & Hletter).
  split; [|split].
  - rewrite (proj2 (Hlike "2abc" eq_refl)). reflexivity.
  - exact (Hread ".9" ltac:(simpl; lia) eq_refl).
  - refine (proj2 (Hletter _ "bc" _)). right. by vm_compute.
Defined.

Lemma countOf_cons posts p c :
  Community.countOf (p :: posts) c
  = ((if decide (Community.category p = c) then 1 else 0)
     + Community.countOf posts c)%nat.
Proof.
  unfold Community.countOf. rewrite filter_cons.
  by destruct (decide (Community.category p = c)).
Qed.

(** X23. As long as every post has one of the four categories of the
    validator, the count that [categories] reports for 'all' is the sum of
    its four other counts; this holds of the array the module starts with
    and is kept by every new post, which the validator admits only with
    one of the four, and by every like. *)
Theorem categories_add_up posts uid user title content category now postId :
  postCategories posts →
  Community.count <$> Community.categories posts
  = [ (Community.countOf posts "question"
       + Community.countOf posts "success_story"
       + Community.countOf posts "guide"
       + Community.countOf posts "tips")%nat;
      Community.countOf posts "question";
      Community.countOf posts "success_story";
      Community.countOf posts "guide";
      Community.countOf posts "tips" ]
  ∧ postCategories
      (Community.createPost posts uid user title content category now).2
  ∧ postCategories (Community.likePost posts postId).2
  ∧ ∀ t0, postCategories (Community.communityPosts t0).
Proof.
  intros Hposts. split; [|split; [|split]].
  - simpl. f_equal. induction Hposts as [|p posts Hp _ IH]; [done|].
    rewrite !countOf_cons. simpl length. rewrite IH.
    unfold Community.categoryValues in Hp.
    rewrite !elem_of_cons, elem_of_nil in Hp.
    destruct Hp as [->|[->|[->|[->|[]]]]]; simpl; lia.
  - destruct (createPost_cases posts uid user title content category now)
      as [->|(a & Hvalid & _ & ->)]; [done|]. simpl.
    apply Forall_cons. split; [|done]. simpl.
    unfold Community.validPost in Hvalid.
    apply andb_true_iff in Hvalid as [_ Hcat].
    by apply bool_decide_eq_true in Hcat.
  - destruct (likePost_cases posts postId)
      as [[-> _]|(i & p & Hi & _ & _ & ->)]; [done|]. simpl.
    apply Forall_insert; [done|]. simpl.
    unfold postCategories in Hposts. rewrite Forall_forall in Hposts.
    apply Hposts. by eapply list_elem_of_lookup_2.
  - intros t0. unfold postCategories, Community.categoryValues. simpl.
    repeat constructor.
Qed.

Lemma categories_add_up_witness :
  Community.count <$> Community.categories (Community.communityPosts 0)
  = [2%nat; 1%nat; 1%nat; 0%nat; 0%nat].
Proof.
  exact (proj1 (categories_add_up (Community.communityPosts 0) "" None "" ""
                  "" 0 None
                  (proj2 (proj2 (proj2
                     (categories_add_up [] "" None "" "" "" 0 None
                        (Forall_nil_2 _)))) 0))).
Defined.

End Posts.

(** ** Sorting and paging *)

Section Paging.

Context {A : Type} (key : A → Z).

(** The comparison of the routes, [key b - key a]: the larger key first. *)
Lemma insert_perm (x : A) (l : list A) :
  Js.insert (λ a b, key b - key a) x l ≡ₚ x :: l.
Proof.
  induction l as [|y l IH]; simpl; [done|].
  destruct (key y - key x >? 0); [|done].
  by rewrite IH, Permutation_swap.
Qed.

Lemma sort_perm (l : list A) : Js.sort (λ a b, key b - key a) l ≡ₚ l.
Proof.
  induction l as [|x l IH]; [done|].
  change (Js.sort (λ a b, key b - key a) (x :: l))
    with (Js.insert (λ a b, key b - key a) x
            (Js.sort (λ a b, key b - key a) l)).
  by rewrite insert_perm, IH.
Qed.

Lemma insert_sorted (x : A) (l : list A) :
  StronglySorted (λ a b, key b ≤ key a) l →
  StronglySorted (λ a b, key b ≤ key a)
    (Js.insert (λ a b, key b - key a) x l).
Proof.
  induction 1 as [|y l Hl IH Hy]; simpl; [by repeat constructor|].
  destruct (Z.gtb_spec (key y - key x) 0) as [Hgt|Hle].
  - constructor; [done|]. rewrite insert_perm. constructor; [lia|done].
  - constructor; [by constructor|]. constructor; [lia|].
    eapply Forall_impl; [exact Hy|]. simpl. intros; lia.
Qed.

Lemma sort_sorted (l : list A) :
  StronglySorted (λ a b, key b ≤ key a) (Js.sort (λ a b, key b - key a) l).
Proof.
  induction l as [|x l IH]; [constructor|].
  change (Js.sort (λ a b, key b - key a) (x :: l))
    with (Js.insert (λ a b, key b - key a) x
            (Js.sort (λ a b, key b - key a) l)).
  by apply insert_sorted.
Qed.

(** Stability: the elements of one key keep the order they had. *)
Lemma insert_stable (d : Z) (x : A) (l : list A) :
  filter (λ a, key a = d) (Js.insert (λ a b, key b - key a) x l)
  = filter (λ a, key a = d) (x :: l).
Proof.
  induction l as [|y l IH]; simpl; [done|].
  destruct (Z.gtb_spec (key y - key x) 0) as [Hgt|Hle]; [|done].
  rewrite filter_cons, IH, !filter_cons.
  repeat case_decide; try done; lia.
Qed.

Lemma sort_stable (d : Z) (l : list A) :
  filter (λ a, key a = d) (Js.sort (λ a b, key b - key a) l)
  = filter (λ a, key a = d) l.
Proof.
  induction l as [|x l IH]; [done|].
  change (Js.sort (λ a b, key b - key a) (x :: l))
    with (Js.insert (λ a b, key b - key a) x
            (Js.sort (λ a b, key b - key a) l)).
  by rewrite insert_stable, !filter_cons, IH.
Qed.

(** A slice between two indices that are not negative. *)
Lemma slice_take_drop (l : list A) (start stop : Z) :
  0 ≤ start → 0 ≤ stop →
  Js.slice l start stop
  = take (Z.to_nat (stop - start)) (drop (Z.to_nat start) l).
Proof.
  intros Hstart Hstop. unfold Js.slice.
  destruct (Z.ltb_spec start 0); [lia|].
  destruct (Z.ltb_spec stop 0); [lia|].
  destruct (decide (start ≤ Z.of_nat (length l))) as [Hin|Hout].
  - rewrite (Z.min_l start) by done.
    destruct (decide (stop ≤ Z.of_nat (length l))) as [Hin'|Hout'].
    + by rewrite (Z.min_l stop).
    + rewrite (Z.min_r stop) by lia.
      rewrite !take_ge; [done|rewrite length_drop; lia..].
  - rewrite (Z.min_r start) by lia.
    rewrite !drop_ge by lia. by rewrite !take_nil.
Qed.

(** The pages of [limit] elements, one after the other, make the list. *)
Lemma pages_concat (l : list A) (limit : nat) (n : nat) :
  concat ((λ k, take limit (drop (k * limit) l)) <$> seq 0 n)
  = take (n * limit) l.
Proof.
  induction n as [|n IH]; [done|].
  rewrite seq_S, fmap_app, concat_app, IH. simpl.
  rewrite app_nil_r, take_take_drop. f_equal. lia.
Qed.

End Paging.

(** ** The pages of the transactions *)

Section TransactionPages.

Implicit Types (db : Routes.DB) (user : User.t) (uid : string).

Lemma page_items (txs : list User.Transaction) (page limit : Z) :
  1 ≤ page → 0 < limit →
  Js.slice txs ((page - 1) * limit) (page * limit)
  = take (Z.to_nat limit)
      (drop (Z.to_nat (page - 1) * Z.to_nat limit) txs).
Proof.
  intros Hpage Hlimit. rewrite slice_take_drop by nia.
  f_equal; [f_equal; lia|].
  f_equal. rewrite Z2Nat.inj_mul by lia. done.
Qed.

(** The number of pages is enough for the whole list. *)
Lemma ceil_covers (n limit : Z) :
  0 ≤ n → 0 < limit → 0 ≤ - (- n / limit) ∧ n ≤ - (- n / limit) * limit.
Proof.
  intros Hn Hlimit.
  pose proof (Z.mul_div_le (- n) limit Hlimit).
  assert (- n / limit ≤ 0) by (apply Z.div_le_upper_bound; lia).
  split; nia.
Qed.

(** X24. [transactions] lists the log of the account with the newest
    transaction first: with a limit that holds the whole log, the items are
    the transactions of the log, each as often as there, in an order in
    which no date comes before a later one, and transactions of one date
    keep the order of the log. The total is the length of the log. *)
Theorem transactions_newest_first db uid user limit :
  Routes.users db !! uid = Some user →
  Z.of_nat (length (User.transactions (User.wallet user))) ≤ limit →
  0 < limit →
  ∃ page,
    Rewards.transactions db uid None (Some limit) = Some page
    ∧ Rewards.items page ≡ₚ User.transactions (User.wallet user)
    ∧ StronglySorted (λ a b, User.date b ≤ User.date a) (Rewards.items page)
    ∧ (∀ d, filter (λ t, User.date t = d) (Rewards.items page)
            = filter (λ t, User.date t = d)
                (User.transactions (User.wallet user)))
    ∧ Rewards.total_items page
      = Z.of_nat (length (User.transactions (User.wallet user))).
Proof.
  intros Hu Hlen Hlimit. unfold Rewards.transactions. rewrite Hu. simpl.
  eexists. split; [reflexivity|]. simpl.
  pose proof (sort_perm User.date (User.transactions (User.wallet user)))
    as Hperm.
  pose proof (sort_sorted User.date (User.transactions (User.wallet user)))
    as Hsorted.
  pose proof (λ d, sort_stable User.date d (User.transactions (User.wallet user)))
    as Hstable.
  change (λ a b : User.Transaction, User.date b - User.date a)
    with Rewards.newestFirst in *.
  rewrite page_items by lia. simpl. rewrite drop_0.
  rewrite take_ge by (rewrite Hperm; lia).
  split; [done|]. split; [done|]. split; [done|].
  by rewrite Hperm.
Qed.

Lemma transactions_newest_first_witness :
  ∃ page,
    Rewards.transactions
      (Routes.mkDB ∅ {[ "u1" := awardAll (User.create "u1")
                                  [mkAward 50 None 1; mkAward 100 None 2] ]})
      "u1" None (Some 20) = Some page
    ∧ Rewards.items page
      = [User.mkTransaction User.earned 100 "Points earned" 2;
         User.mkTransaction User.earned 50 "Points earned" 1].
Proof.
  destruct (transactions_newest_first
              (Routes.mkDB ∅ {[ "u1" := awardAll (User.create "u1")
                                          [mkAward 50 None 1;
                                           mkAward 100 None 2] ]})
              "u1"
              (awardAll (User.create "u1")
                 [mkAward 50 None 1; mkAward 100 None 2])
              20 ltac:(by vm_compute) ltac:(by vm_compute) ltac:(lia))
    as (page & Hpage & _).
  exists page. split; [exact Hpage|].
  vm_compute in Hpage. by injection Hpage as <-.
Defined.

(** X25. The pages of [transactions] for a positive limit: page [k >= 1]
    holds the [limit] transactions that follow the first [(k - 1) * limit]
    of the sorted log, the number of pages reported is
    ceil (length / limit), the items of the pages 1 .. ceil (length / limit)
    one after the other are the whole sorted log, every later page is
    empty, and so is page 0. A limit of 0 gives no number of pages. *)
Theorem transactions_pages_partition db uid user limit :
  Routes.users db !! uid = Some user →
  0 < limit →
  let sorted :=
    Js.sort Rewards.newestFirst (User.transactions (User.wallet user)) in
  let count := Z.to_nat (- (- Z.of_nat (length sorted) / limit)) in
  let items page :=
    match Rewards.transactions db uid (Some page) (Some limit) with
    | Some p => Rewards.items p
    | None => []
    end in
  (∀ page, 1 ≤ page →
     items page
     = take (Z.to_nat limit)
         (drop (Z.to_nat (page - 1) * Z.to_nat limit) sorted)
     ∧ Z.of_nat (length (items page)) ≤ limit
     ∧ (Z.of_nat count < page → items page = []))
  ∧ (∀ page,
       Rewards.pages
       <$> Rewards.transactions db uid (Some page) (Some limit)
       = Some (Some (Z.of_nat count)))
  ∧ concat ((λ k, items (Z.of_nat k)) <$> seq 1 count) = sorted
  ∧ items 0 = []
  ∧ Rewards.pages <$> Rewards.transactions db uid None (Some 0) = Some None.
Proof.
  intros Hu Hlimit sorted count items.
  destruct (ceil_covers (Z.of_nat (length sorted)) limit ltac:(lia) Hlimit)
    as [Hcount Hcovers].
  assert (∀ page, 1 ≤ page →
            items page
            = take (Z.to_nat limit)
                (drop (Z.to_nat (page - 1) * Z.to_nat limit) sorted))
    as Hitems.
  { intros page Hpage. subst items. unfold Rewards.transactions.
    rewrite Hu. simpl. by rewrite page_items. }
  split; [|split; [|split; [|split]]].
  - intros page Hpage. rewrite (Hitems page Hpage).
    split; [done|]. split.
    + rewrite length_take. lia.
    + intros Hbeyond. rewrite drop_ge; [by rewrite take_nil|].
      subst count. nia.
  - intros page. unfold Rewards.transactions. rewrite Hu. simpl.
    unfold Js.ceilDiv. destruct (Z.eqb_spec limit 0); [lia|].
    subst count sorted. by rewrite Z2Nat.id.
  - rewrite <- fmap_S_seq, <- list_fmap_compose.
    rewrite (list_fmap_ext _
               (λ k, take (Z.to_nat limit) (drop (k * Z.to_nat limit) sorted))).
    + rewrite pages_concat. apply take_ge. subst count. nia.
    + intros i k _. simpl. rewrite Hitems by lia.
      do 3 f_equal. lia.
  - subst items. unfold Rewards.transactions. rewrite Hu. simpl.
    unfold Js.slice.
    destruct (Z.ltb_spec ((0 - 1) * limit) 0); [|lia].
    destruct (Z.ltb_spec (0 * limit) 0); [lia|].
    rewrite Z.mul_0_l, Z.min_l by lia.
    rewrite (Z2Nat.nonpos (0 - _)); [done|lia].
  - unfold Rewards.transactions. by rewrite Hu.
Qed.

Lemma transactions_pages_partition_witness :
  Rewards.pages
  <$> Rewards.transactions
        (Routes.mkDB ∅ {[ "rajesh" := rajesh 0 ]}) "rajesh" (Some 1) (Some 1)
  = Some (Some 2).
Proof.
  exact (proj1 (proj2 (transactions_pages_partition
                         (Routes.mkDB ∅ {[ "rajesh" := rajesh 0 ]}) "rajesh"
                         (rajesh 0) 1 ltac:(by vm_compute) ltac:(lia)))
           1).
Defined.

End TransactionPages.

(** ** The list of posts, the days of a challenge, the farming profile *)

Section Views.

Lemma StronglySorted_sublist {A} (R : relation A) (l k : list A) :
  l `sublist_of` k → StronglySorted R k → StronglySorted R l.
Proof.
  induction 1 as [|x l k Hsub IH|x l k Hsub IH]; intros Hk; [done|..].
  - apply StronglySorted_inv in Hk as [Hk Hx].
    constructor; [by apply IH|].
    rewrite Forall_forall in Hx |- *. intros y Hy.
    apply Hx. by eapply elem_of_sublist.
  - apply StronglySorted_inv in Hk as [Hk _]. by apply IH.
Qed.

Lemma slice_sublist {A} (l : list A) (start stop : Z) :
  Js.slice l start stop `sublist_of` l.
Proof.
  unfold Js.slice. etrans; [apply sublist_take|apply sublist_drop].
Qed.

(** X26. [getPosts] with a category other than 'all' lists only posts of
    that category, taken from the array, the newest first, and reports
    their number as total; with no category, an empty one or 'all' it
    counts every post. A category that no post has gives an empty page
    with total 0. *)
Theorem getPosts_filters_by_category posts c page limit :
  c ≠ "" → c ≠ "all" →
  let listed := Community.getPosts posts (Some c) page limit in
  Community.total listed = Z.of_nat (Community.countOf posts c)
  ∧ Forall (λ p, Community.category p = c ∧ p ∈ posts)
      (Community.items listed)
  ∧ StronglySorted (λ a b, Community.createdAt b ≤ Community.createdAt a)
      (Community.items listed)
  ∧ (Community.countOf posts c = 0%nat → Community.items listed = [])
  ∧ Community.getPosts posts (Some "all") page limit
    = Community.getPosts posts None page limit
  ∧ Community.getPosts posts (Some "") page limit
    = Community.getPosts posts None page limit
  ∧ Community.total (Community.getPosts posts None page limit)
    = Z.of_nat (length posts).
Proof.
  intros Hc Hall listed.
  pose proof (sort_perm Community.createdAt) as Hperm.
  pose proof (sort_sorted Community.createdAt) as Hsorted.
  change (λ a b : Community.Post, Community.createdAt b - Community.createdAt a)
    with Community.newestFirst in *.
  assert (User.truthy (Some c) && negb (bool_decide (Some c = Some "all"))
          = true) as Hfilter.
  { apply andb_true_iff. split.
    - unfold User.truthy. by apply negb_true_iff, String.eqb_neq.
    - apply negb_true_iff, bool_decide_eq_false. congruence. }
  assert (filter (λ p, Some (Community.category p) = Some c) posts
          = filter (λ p, Community.category p = c) posts) as Hsame.
  { apply list_filter_iff. intros p. split; congruence. }
  subst listed. unfold Community.getPosts. rewrite Hfilter, Hsame. simpl.
  split; [by rewrite Hperm|]. split; [|split; [|split; [|split; [|split]]]].
  - rewrite Forall_forall. intros p Hp.
    pose proof (elem_of_sublist _ _ _ Hp (slice_sublist _ _ _)) as Hin.
    rewrite Hperm in Hin. by apply list_elem_of_filter in Hin.
  - eapply StronglySorted_sublist; [apply slice_sublist|apply Hsorted].
  - unfold Community.countOf. intros Hnone.
    apply length_zero_iff_nil in Hnone. rewrite Hnone. simpl.
    unfold Js.slice. by rewrite drop_nil, take_nil.
  - done.
  - done.
  - by rewrite Hperm.
Qed.

Lemma getPosts_filters_by_category_witness :
  Community.total
    (Community.getPosts (Community.communityPosts 0) (Some "question")
       None None) = 1.
Proof.
  exact (proj1 (getPosts_filters_by_category (Community.communityPosts 0)
                  "question" None None
                  ltac:(discriminate) ltac:(discriminate))).
Defined.

(** X27. [daysRemaining] counts the days that have begun between now and
    the end date: it is [null] without an end date, 0 exactly when the end
    date is not after now, and otherwise the number [d >= 1] with
    (d - 1) days < endDate - now <= d days; it is never negative. *)
Theorem daysRemaining_counts_begun_days (endDate now : Z) :
  ChallengeViews.daysRemaining None now = None
  ∧ ∃ d,
      ChallengeViews.daysRemaining (Some endDate) now = Some d
      ∧ 0 ≤ d
      ∧ (d = 0 ↔ endDate ≤ now)
      ∧ (now < endDate →
         (d - 1) * 86400000 < endDate - now ≤ d * 86400000).
Proof.
  split; [done|]. unfold ChallengeViews.daysRemaining, ChallengeViews.ceil.
  change (1000 * 60 * 60 * 24) with 86400000.
  eexists. split; [reflexivity|].
  pose proof (Z.div_mod (- (endDate - now)) 86400000 ltac:(lia)) as Hdiv.
  pose proof (Z.mod_pos_bound (- (endDate - now)) 86400000 ltac:(lia)) as Hmod.
  destruct (Z.gtb_spec (- (- (endDate - now) / 86400000)) 0); lia.
Qed.

(** X28. The farming profile route writes what the body gives and nothing
    else: a value that is left out or empty leaves the stored one, points
    and wallet are not touched, and an account that is not found is
    answered 500 with the store unchanged. An account can thereby meet the
    experience and the state that a challenge asks for: if only these two
    checks stand between it and an active challenge, the join succeeds
    after the update. *)
Theorem updateFarmingProfile_then_join db id uid c u e s now :
  Routes.challenges db !! id = Some c →
  Routes.users db !! uid = Some u →
  Challenge.isActive c = true →
  Challenge.find uid (Challenge.participants c) = None →
  (Challenge.roles (Challenge.eligibility c) ≠ [] →
   User.role u ∈ Challenge.roles (Challenge.eligibility c)) →
  Challenge.experience (Challenge.eligibility c) = Some e →
  s ∈ Challenge.states (Challenge.location (Challenge.eligibility c)) →
  s ≠ "" →
  let updated :=
    (Profile.updateFarmingProfile db uid
       (Profile.mkFarmingUpdate (Some e) (Some s) None)).2 in
  (∃ u',
     Routes.users updated !! uid = Some u'
     ∧ User.farmingExperience (User.farmingProfile u') = Some e
     ∧ User.state (User.location u') = Some s
     ∧ User.district (User.location u') = User.district (User.location u)
     ∧ User.gamification u' = User.gamification u
     ∧ User.wallet u' = User.wallet u)
  ∧ Routes.challenges updated = Routes.challenges db
  ∧ (Routes.join updated id uid now).1 = Routes.Joined
  ∧ (Profile.updateFarmingProfile db uid
       (Profile.mkFarmingUpdate None (Some "") None)).2 = db
  ∧ ∀ missing body,
      Routes.users db !! missing = None →
      Profile.updateFarmingProfile db missing body = (None, db).
Proof.
  intros Hc Hu Hact Hfind Hrole Hexp Hs Hne updated. subst updated.
  unfold Profile.updateFarmingProfile. rewrite Hu. simpl.
  assert (Profile.update (Some s) (User.state (User.location u)) = Some s)
    as Hstate.
  { unfold Profile.update, User.truthy.
    by rewrite (proj2 (String.eqb_neq s "") Hne). }
  rewrite Hstate. split; [|split; [done|split; [|split]]].
  - eexists. rewrite lookup_insert_eq. split; [reflexivity|]. by simpl.
  - erewrite join_success; [done|exact Hc|exact Hact|exact Hfind| |].
    + simpl. apply lookup_insert_eq.
    + apply isEligible_spec. unfold eligibleSpec. simpl.
      split; [done|]. split; [|by eauto].
      intros x Hx. congruence.
  - unfold Profile.update. simpl. unfold Routes.save_user.
    destruct db as [cs us]. simpl in *. f_equal.
    apply insert_id. rewrite Hu. by destruct u as [? ? ? ? ? [] [] ? ? ?].
  - intros missing body Hmissing. by rewrite Hmissing.
Qed.

Lemma updateFarmingProfile_then_join_witness :
  (Routes.join
     (Profile.updateFarmingProfile
        (Routes.mkDB {[ "drip" := dripIrrigation ]} {[ "rajesh" := rajesh 0 ]})
        "rajesh" (Profile.mkFarmingUpdate (Some beginner) (Some "Haryana") None)).2
     "drip" "rajesh" 5).1
  = Routes.Joined.
Proof.
  refine (proj1 (proj2 (proj2
            (updateFarmingProfile_then_join
               (Routes.mkDB {[ "drip" := dripIrrigation ]}
                  {[ "rajesh" := rajesh 0 ]})
               "drip" "rajesh" dripIrrigation (rajesh 0) beginner "Haryana" 5
               _ _ _ _ _ _ _ _)))).
  - by vm_compute.
  - by vm_compute.
  - reflexivity.
  - reflexivity.
  - intros _. apply (bool_decide_unpack _). by vm_compute.
  - reflexivity.
  - apply (bool_decide_unpack _). by vm_compute.
  - discriminate.
Defined.

End Views.

(** ** The leaderboard of a challenge *)

Section Board.

Lemma insert_perm_any {A} (cmp : A → A → Z) (x : A) (l : list A) :
  Js.insert cmp x l ≡ₚ x :: l.
Proof.
  induction l as [|y l IH]; simpl; [done|].
  destruct (cmp x y >? 0); [|done].
  by rewrite IH, Permutation_swap.
Qed.

Lemma sort_perm_any {A} (cmp : A → A → Z) (l : list A) : Js.sort cmp l ≡ₚ l.
Proof.
  induction l as [|x l IH]; [done|].
  change (Js.sort cmp (x :: l)) with (Js.insert cmp x (Js.sort cmp l)).
  by rewrite insert_perm_any, IH.
Qed.

Lemma insert_ext {A} (cmp cmp' : A → A → Z) (x : A) (l : list A) :
  Forall (λ y, cmp x y = cmp' x y) l →
  Js.insert cmp x l = Js.insert cmp' x l.
Proof.
  induction 1 as [|y l Hy _ IH]; simpl; [done|]. by rewrite Hy, IH.
Qed.

(** Two comparisons that agree on the elements of a list sort it alike. *)
Lemma sort_ext {A} (cmp cmp' : A → A → Z) (l : list A) :
  (∀ x y, x ∈ l → y ∈ l → cmp x y = cmp' x y) →
  Js.sort cmp l = Js.sort cmp' l.
Proof.
  induction l as [|x l IH]; intros Hagree; [done|].
  change (Js.sort cmp (x :: l)) with (Js.insert cmp x (Js.sort cmp l)).
  change (Js.sort cmp' (x :: l)) with (Js.insert cmp' x (Js.sort cmp' l)).
  rewrite IH by (intros; apply Hagree; by constructor).
  apply insert_ext. rewrite Forall_forall. intros y Hy.
  rewrite sort_perm_any in Hy. apply Hagree; by constructor.
Qed.

Lemma StronglySorted_lookup {A} (R : relation A) (l : list A) i j a b :
  StronglySorted R l → l !! i = Some a → l !! j = Some b → (i < j)%nat →
  R a b.
Proof.
  intros Hl. revert i j. induction Hl as [|x l _ IH Hx]; intros i j Hi Hj Hlt.
  - by rewrite lookup_nil in Hi.
  - destruct j as [|j]; [lia|]. destruct i as [|i]; simpl in *.
    + injection Hi as <-. rewrite Forall_forall in Hx.
      apply Hx. by eapply list_elem_of_lookup_2.
    + apply (IH i j); [done..|lia].
Qed.

(** X29. The leaderboard of a challenge whose entries follow the rule of
    the routes lists exactly its completed entries, one line each with the
    reward of the challenge, ranked 1, 2, ... in the order of the lines,
    and an entry completed earlier is never ranked behind one completed
    later. An ObjectId under which the store keeps no challenge is
    answered 404, a path parameter that is no ObjectId 500. *)
Theorem challenge_leaderboard_by_completion_time db id c :
  Routes.challenges db !! id = Some c →
  entriesFollowRule c →
  (∃ board,
     ChallengeBoard.leaderboard db (Some id) = ChallengeBoard.Board board
     ∧ length board = length (completedEntries (Challenge.participants c))
     ∧ ChallengeBoard.user <$> board
       ≡ₚ Challenge.userId <$> completedEntries (Challenge.participants c)
     ∧ (∀ i e, board !! i = Some e →
          ChallengeBoard.rank e = Z.of_nat i + 1
          ∧ ChallengeBoard.pointsEarned e = Challenge.points c
          ∧ is_Some (ChallengeBoard.completedAt e))
     ∧ (∀ i j e e' t t',
          board !! i = Some e → board !! j = Some e' → (i < j)%nat →
          ChallengeBoard.completedAt e = Some t →
          ChallengeBoard.completedAt e' = Some t' →
          t ≤ t'))
  ∧ (∀ missing, Routes.challenges db !! missing = None →
                ChallengeBoard.leaderboard db (Some missing)
                = ChallengeBoard.Failed 404 "Challenge not found")
  ∧ ChallengeBoard.leaderboard db None
    = ChallengeBoard.Failed 500 "Server error".
Proof.
  intros Hc Hrule.
  split; [|split; [intros missing Hmissing; simpl; by rewrite Hmissing|done]].
  unfold ChallengeBoard.leaderboard. rewrite Hc.
  fold (completedEntries (Challenge.participants c)).
  set (done := completedEntries (Challenge.participants c)).
  assert (Forall (λ p, Challenge.pointsEarned p = Challenge.points c
                       ∧ is_Some (Challenge.completedAt p)) done) as Hdone.
  { subst done. unfold completedEntries. rewrite Forall_forall.
    intros p Hp. apply list_elem_of_filter in Hp as [Hst Hp].
    unfold entriesFollowRule in Hrule. rewrite Forall_forall in Hrule.
    specialize (Hrule p Hp). unfold entryRule in Hrule.
    by rewrite decide_True in Hrule. }
  set (key := λ p : Challenge.Participant,
                - default 0 (Challenge.completedAt p)).
  assert (Js.sort ChallengeBoard.compare done
          = Js.sort (λ a b, key b - key a) done) as Hsort.
  { apply sort_ext. intros x y Hx Hy. rewrite Forall_forall in Hdone.
    destruct (Hdone x Hx) as [_ [tx Htx]].
    destruct (Hdone y Hy) as [_ [ty Hty]].
    unfold ChallengeBoard.compare, key. rewrite Htx, Hty. simpl. lia. }
  pose proof (sort_perm_any ChallengeBoard.compare done) as Hperm.
  pose proof (sort_sorted key done) as Hsorted.
  rewrite <- Hsort in Hsorted.
  eexists. split; [reflexivity|].
  split; [by rewrite length_imap, Hperm|]. split; [|split].
  - assert (∀ l : list Challenge.Participant,
              ChallengeBoard.user
              <$> imap (λ index participant,
                          ChallengeBoard.mkEntry (Z.of_nat index + 1)
                            (Challenge.userId participant)
                            (Challenge.pointsEarned participant)
                            (Challenge.completedAt participant)) l
              = Challenge.userId <$> l) as Husers.
    { intros l. rewrite fmap_imap, <- (imap_const Challenge.userId).
      by apply imap_ext. }
    by rewrite Husers, Hperm.
  - intros i e He. apply list_lookup_imap_Some in He as (p & Hp & ->). simpl.
    split; [done|].
    assert (p ∈ done) as Hin
      by (rewrite <- Hperm; by eapply list_elem_of_lookup_2).
    rewrite Forall_forall in Hdone. by apply Hdone.
  - intros i j e e' t t' He He' Hlt Ht Ht'.
    apply list_lookup_imap_Some in He as (p & Hp & ->).
    apply list_lookup_imap_Some in He' as (p' & Hp' & ->). simpl in *.
    pose proof (StronglySorted_lookup _ _ _ _ _ _ Hsorted Hp Hp' Hlt) as Hle.
    unfold key in Hle. rewrite Ht, Ht' in Hle. simpl in Hle. lia.
Qed.

Lemma challenge_leaderboard_by_completion_time_witness :
  ∃ board,
    ChallengeBoard.leaderboard storeTwoCompleted (Some "c1")
    = ChallengeBoard.Board board
    ∧ board = [ChallengeBoard.mkEntry 1 "u2" 100 (Some 4);
               ChallengeBoard.mkEntry 2 "u1" 100 (Some 9)]
    ∧ (∀ i j e e' t t',
         board !! i = Some e → board !! j = Some e' → (i < j)%nat →
         ChallengeBoard.completedAt e = Some t →
         ChallengeBoard.completedAt e' = Some t' →
         t ≤ t').
Proof.
  destruct (challenge_leaderboard_by_completion_time storeTwoCompleted "c1"
              (Challenge.mk "Mulching" 100 (Challenge.eligibility openChallenge)
                 [Challenge.mkParticipant "u1" 1 (Some 9) Challenge.completed
                    [photo1] 100;
                  Challenge.mkParticipant "u2" 2 (Some 4) Challenge.completed
                    [photo1] 100]
                 true
                 (Challenge.mkStatistics 2 2 None
                    (Some (Qmult (Qdiv (inject_Z 2) (inject_Z 2))
                                 (inject_Z 100)))))
              ltac:(by vm_compute)
              ltac:(repeat constructor; by eexists))
    as [(board & Hboard & _ & _ & _ & Horder) _].
  exists board. split; [exact Hboard|]. split; [|exact Horder].
  vm_compute in Hboard. by injection Hboard as <-.
Defined.

End Board.
